(** * DailyMealPlannerExtended: Assets/Database/convert.py

    A shallow embedding of the setup script that makes sure the OpenNutrition
    dataset is present next to the script (downloading and unpacking it when
    it is missing), parses it, and materialises it as a SQLite table in the
    per-platform application-data directory.

    The script is a straight line of library calls with two loops.  The
    control flow, the order of the effects and the loops are transcribed from
    [convert.py]; the library calls ([pathlib], [urllib], [zipfile], [os],
    [pandas], [sqlite3], [platformdirs]) are modelled by their documented
    behaviour on a tree-shaped file system. *)

From Stdlib Require Import String Ascii List ZArith Bool Arith Lia.
From Stdlib Require Import DecimalString.
Import ListNotations.
Set Warnings "-register-all".
Local Open Scope string_scope.
Local Open Scope list_scope.

(** ** Exceptions *)

Inductive exn : Type :=
| URLError
| ContentTooShortError
| BadZipFile
| FileNotFoundError
| FileExistsError
| IsADirectoryError
| NotADirectoryError
| EmptyDataError
| ParserError
| UnicodeDecodeError
| ValueError
| OverflowError
| DatabaseError
| OperationalError
| PermissionError
| OSError.

Definition result (A : Type) : Type := (exn + A)%type.

Definition is_FileNotFoundError (e : exn) : bool :=
  match e with FileNotFoundError => true | _ => false end.

(** ** Tables *)

Module Table.

(** Column types that [pandas] infers when reading text. *)
Inductive dtype : Type := int64 | uint64 | float64 | bool_ | object.


(** A float keeps the text it was read from; no property here depends on
    its binary value. *)
Inductive cell : Type :=
| IntCell (z : Z)
| FloatCell (lexeme : string)
| BoolCell (b : bool)
| StrCell (s : string)
| NaN.

(** The row labels of a frame: the default [RangeIndex], or explicit labels
    when the body of the file is wider than its header. *)
Inductive Index : Type :=
| RangeIndex (stop : nat)
| Labels (levels : nat) (rows : list (list string)).

Record DataFrame : Type := mkDataFrame {
  index : Index;
  columns : list (string * dtype);
  values : list (list cell)
}.

Definition len (df : DataFrame) : nat := length (values df).

Inductive sqltype : Type := INTEGER | REAL | TEXT.

Record table : Type := mkTable {
  schema : list (string * sqltype);
  rows : list (list cell)
}.

(** A database file holds named tables. *)
Definition database : Type := list (string * table).

End Table.
Import Table.

(** ** The file system *)

(** A path is the list of its components, relative to a directory. *)
Definition path : Type := list string.

(** A file holds plain bytes, or is a well-formed container which the model
    keeps in decoded form: a zip archive with its members in archive order,
    or a SQLite database with its tables. *)
Inductive payload : Type :=
| Bytes (text : string)
| Zip (members : list (path * option payload))
| Sqlite (db : database).

(** A zip member is a sanitised relative path together with its content;
    [None] marks a directory entry. *)
Definition member : Type := (path * option payload)%type.

Inductive node : Type :=
| File (data : payload)
| Dir (entries : list (string * node)).

(** The entries of a directory, in the order in which the operating system
    lists them. *)
Definition listing : Type := list (string * node).

Definition is_file (x : option node) : bool :=
  match x with Some (File _) => true | _ => false end.
Definition is_dir (x : option node) : bool :=
  match x with Some (Dir _) => true | _ => false end.

Fixpoint lookup (name : string) (es : listing) : option node :=
  match es with
  | [] => None
  | (n, x) :: tl => if String.eqb n name then Some x else lookup name tl
  end.

(** [set] overwrites an entry where it stands, or adds it at the end. *)
Fixpoint set (name : string) (x : node) (es : listing) : listing :=
  match es with
  | [] => [(name, x)]
  | (n, y) :: tl =>
      if String.eqb n name then (n, x) :: tl else (n, y) :: set name x tl
  end.

Definition del (name : string) (es : listing) : listing :=
  filter (fun e => negb (String.eqb (fst e) name)) es.

Fixpoint resolve (p : path) (x : node) : option node :=
  match p with
  | [] => Some x
  | c :: rest =>
      match x with
      | Dir es =>
          match lookup c es with
          | Some y => resolve rest y
          | None => None
          end
      | File _ => None
      end
  end.

(** The outcome of an update below the sub-directory [c], seen from its
    parent [es]. *)
Definition into (c : string) (es : listing) (r : result listing)
  : result listing :=
  match r with
  | inr sub' => inr (set c (Dir sub') es)
  | inl e => inl e
  end.

(** [within p f es] applies [f] to the directory at [p] below [es]. *)
Fixpoint within (p : path) (f : listing -> result listing) (es : listing)
  : result listing :=
  match p with
  | [] => f es
  | c :: rest =>
      match lookup c es with
      | Some (Dir sub) => into c es (within rest f sub)
      | Some (File _) => inl NotADirectoryError
      | None => inl FileNotFoundError
      end
  end.

Fixpoint split_last (p : path) : option (path * string) :=
  match p with
  | [] => None
  | [leaf] => Some ([], leaf)
  | c :: rest =>
      match split_last rest with
      | Some (parent, leaf) => Some (c :: parent, leaf)
      | None => None
      end
  end.

Definition path_eqb (p q : path) : bool :=
  if list_eq_dec string_dec p q then true else false.

(** A file named [name] somewhere in the tree, at any depth. *)
Fixpoint holds_file (name : string) (x : node) : bool :=
  match x with
  | File _ => false
  | Dir es =>
      (fix scan (l : listing) : bool :=
         match l with
         | [] => false
         | (n, y) :: tl =>
             (match y with File _ => String.eqb n name | Dir _ => false end)
             || holds_file name y || scan tl
         end) es
  end.

(** Pre-order traversal as [os.walk] yields it: a directory first, with the
    names of its sub-directories and of its files in listing order, then each
    sub-directory in turn. *)
Definition dirnames (es : listing) : list string :=
  map fst (filter (fun e => match snd e with Dir _ => true | File _ => false end) es).
Definition filenames (es : listing) : list string :=
  map fst (filter (fun e => match snd e with File _ => true | Dir _ => false end) es).

Fixpoint walk (root : path) (x : node) : list (path * list string * list string) :=
  match x with
  | File _ => []
  | Dir es =>
      (root, dirnames es, filenames es) ::
      (fix below (l : listing) : list (path * list string * list string) :=
         match l with
         | [] => []
         | (n, y) :: tl => walk (root ++ [n]) y ++ below tl
         end) es
  end.

(** ** The world the script runs in *)

Inductive platform : Type := Linux | MacOS | Windows.

(** What the server does when a URL is requested. *)
Inductive response : Type :=
| Unreachable
| Interrupted (partial : string)
| Served (body : payload).

Inductive event : Type :=
| Request (url : string)
| Print (line : string).

(** [script_dir] is the content of the directory of [convert.py];
    [data_root] is the tree in which the application-data directory lives,
    which lies outside the script's directory; [data_base] is the platform's
    base directory for application data in that tree; [trace] records network
    requests and console output, oldest first. *)
Record world : Type := mkWorld {
  os : platform;
  remote : string -> response;
  script_dir : listing;
  data_root : listing;
  data_base : path;
  trace : list event
}.

Definition with_script_dir (es : listing) (w : world) : world :=
  mkWorld (os w) (remote w) es (data_root w) (data_base w) (trace w).
Definition with_data_root (es : listing) (w : world) : world :=
  mkWorld (os w) (remote w) (script_dir w) es (data_base w) (trace w).
Definition log (ev : event) (w : world) : world :=
  mkWorld (os w) (remote w) (script_dir w) (data_root w) (data_base w)
          (trace w ++ [ev]).

(** ** Effects: state and exceptions

    A raised exception keeps the state reached so far: nothing is rolled
    back when the script dies. *)

Inductive outcome (A : Type) : Type :=
| Done (a : A) (w : world)
| Raised (e : exn) (w : world).
Arguments Done {A} a w.
Arguments Raised {A} e w.

Definition M (A : Type) : Type := world -> outcome A.

Definition ret {A} (a : A) : M A := fun w => Done a w.
Definition raise {A} (e : exn) : M A := fun w => Raised e w.
Definition bind {A B} (m : M A) (k : A -> M B) : M B :=
  fun w => match m w with
           | Done a w' => k a w'
           | Raised e w' => Raised e w'
           end.

Notation "x <- m ;; k" := (bind m (fun x => k))
  (at level 61, m at next level, right associativity).
Notation "m ;; k" := (bind m (fun _ => k))
  (at level 61, right associativity).

Definition final {A} (o : outcome A) : world :=
  match o with Done _ w => w | Raised _ w => w end.

(** [for x in xs: body] *)
Fixpoint for_each {A} (xs : list A) (body : A -> M unit) : M unit :=
  match xs with
  | [] => ret tt
  | x :: tl => body x ;; for_each tl body
  end.

Definition print (line : string) : M unit :=
  fun w => Done tt (log (Print line) w).

(** Run a pure update of the script's directory. *)
Definition on_script_dir (f : listing -> result listing) : M unit :=
  fun w => match f (script_dir w) with
           | inr es => Done tt (with_script_dir es w)
           | inl e => Raised e w
           end.

Definition on_data_root (f : listing -> result listing) : M unit :=
  fun w => match f (data_root w) with
           | inr es => Done tt (with_data_root es w)
           | inl e => Raised e w
           end.

(** ** [pathlib], [os], [urllib], [zipfile] *)

(** [Path.exists()] for an entry of the script's directory. *)
Definition exists_ (name : string) : M bool :=
  fun w => Done (match lookup name (script_dir w) with
                 | Some _ => true
                 | None => false
                 end) w.

(** [open()] of a directory, for reading or for writing. *)
Definition open_directory (pf : platform) : exn :=
  match pf with
  | Linux | MacOS => IsADirectoryError
  | Windows => PermissionError
  end.

(** [open(name, 'wb')] followed by writing [data]. *)
Definition write_file (pf : platform) (name : string) (data : payload)
           (es : listing) : result listing :=
  match lookup name es with
  | Some (Dir _) => inl (open_directory pf)
  | _ => inr (set name (File data) es)
  end.

(** [urllib.request.urlretrieve(url, filename)]: the request goes out first;
    the local file is opened once the server has answered. *)
Definition urlretrieve (url : string) (filename : string) : M unit :=
  fun w =>
    let w1 := log (Request url) w in
    match remote w url with
    | Unreachable => Raised URLError w1
    | Interrupted part =>
        match write_file (os w) filename (Bytes part) (script_dir w1) with
        | inr es => Raised ContentTooShortError (with_script_dir es w1)
        | inl e => Raised e w1
        end
    | Served body => on_script_dir (write_file (os w) filename body) w1
    end.

(** [zipfile.ZipFile(name, 'r')]: the member list of the archive. *)
Definition ZipFile (name : string) : M (list member) :=
  fun w => match lookup name (script_dir w) with
           | None => Raised FileNotFoundError w
           | Some (Dir _) => Raised (open_directory (os w)) w
           | Some (File (Zip ms)) => Done ms w
           | Some (File _) => Raised BadZipFile w
           end.

(** Extraction of one member below a directory: missing directories on the
    way are created, an existing file is overwritten, and a file standing
    where a directory is needed (or the reverse) is an error. *)
Fixpoint extract (p : path) (m : option payload) (es : listing)
  : result listing :=
  match p with
  | [] =>
      match m with
      | None => inr es
      | Some _ => inl IsADirectoryError
      end
  | c :: rest =>
      match rest with
      | [] =>
          match m, lookup c es with
          | None, Some (Dir _) => inr es
          | None, Some (File _) => inl FileExistsError
          | None, None => inr (set c (Dir []) es)
          | Some _, Some (Dir _) => inl IsADirectoryError
          | Some d, _ => inr (set c (File d) es)
          end
      | _ :: _ =>
          match lookup c es with
          | Some (File _) => inl NotADirectoryError
          | Some (Dir sub) => into c es (extract rest m sub)
          | None => into c es (extract rest m [])
          end
      end
  end.

(** [zip_ref.extractall(script_dir)]: members are extracted one after the
    other, so a failure leaves the earlier ones on disk. *)
Definition extractall (ms : list member) : M unit :=
  for_each ms (fun m => on_script_dir (extract (fst m) (snd m))).

(** [os.walk(script_dir)].  The generator lists a directory when it reaches
    it.  The loop body below only takes a file out of the directory being
    visited and writes the top-level target, both of which were listed
    before, so the directories still to come are as they were at the start:
    the traversal is taken from the tree at the start of the loop. *)
Definition os_walk : M (list (path * list string * list string)) :=
  fun w => Done (walk [] (Dir (script_dir w))) w.

(** [os.rename] of [src] (a path below the script's directory) onto the
    top-level entry [dst].  On POSIX an existing file is replaced silently;
    on Windows an existing target is an error. *)
Definition rename (src : path) (dst : string) : M unit :=
  fun w =>
    match split_last src, resolve src (Dir (script_dir w)) with
    | Some (parent, leaf), Some x =>
        let move :=
          on_script_dir (fun es =>
            match within parent (fun d => inr (del leaf d)) es with
            | inr es' => inr (set dst x es')
            | inl e => inl e
            end) in
        match lookup dst (script_dir w), x, os w with
        | None, _, _ => move w
        | Some _, _, Windows => Raised FileExistsError w
        | Some (File _), File _, _ => move w
        | Some (File _), Dir _, _ => Raised NotADirectoryError w
        | Some (Dir _), File _, _ => Raised IsADirectoryError w
        | Some (Dir []), Dir _, _ => move w
        | Some (Dir (_ :: _)), Dir _, _ => Raised OSError w
        end
    | _, _ => Raised FileNotFoundError w
    end.

(** [Path.unlink()] of a top-level entry.  Only files can be unlinked; the
    exception for a directory depends on the platform. *)
Definition unlink_directory (pf : platform) : exn :=
  match pf with
  | Linux => IsADirectoryError
  | MacOS | Windows => PermissionError
  end.

Definition unlink (name : string) : M unit :=
  fun w =>
    match lookup name (script_dir w) with
    | None => Raised FileNotFoundError w
    | Some (Dir _) => Raised (unlink_directory (os w)) w
    | Some (File _) => Done tt (with_script_dir (del name (script_dir w)) w)
    end.

(** [script_dir.iterdir()]: the names listed when the loop starts. *)
Definition iterdir : M (list string) :=
  fun w => Done (map fst (script_dir w)) w.

Definition startswith (s pre : string) : bool := String.prefix pre s.

(** A text with its letters A to Z in lower case. *)
Definition lower (c : ascii) : ascii :=
  let n := nat_of_ascii c in
  if (65 <=? n)%nat && (n <=? 90)%nat then ascii_of_nat (n + 32) else c.

Fixpoint casefold (s : string) : string :=
  match s with
  | EmptyString => EmptyString
  | String c tl => String (lower c) (casefold tl)
  end.

(** ** [pandas.read_csv(path, sep='\t')]

    The default tokenizer for a one-character separator: records end at a
    line feed, a carriage return or both; empty lines and lines of blanks
    are skipped; a field that opens with a double quote runs to the closing
    quote, a doubled quote standing for one.  The file is read as bytes;
    names and text cells are decoded as UTF-8 afterwards. *)

Module Utf8.

Definition between (lo hi n : nat) : bool := (lo <=? n)%nat && (n <=? hi)%nat.
Definition continuation (c : ascii) : bool := between 128 191 (nat_of_ascii c).

(** The second byte of a sequence of three or of four bytes: no overlong
    forms, no surrogates, nothing beyond U+10FFFF. *)
Definition second_of_three (lead : nat) (c : ascii) : bool :=
  let n := nat_of_ascii c in
  if (lead =? 224)%nat then between 160 191 n
  else if (lead =? 237)%nat then between 128 159 n
  else between 128 191 n.
Definition second_of_four (lead : nat) (c : ascii) : bool :=
  let n := nat_of_ascii c in
  if (lead =? 240)%nat then between 144 191 n
  else if (lead =? 244)%nat then between 128 143 n
  else between 128 191 n.

Fixpoint valid (l : list ascii) : bool :=
  match l with
  | [] => true
  | c :: tl =>
      let n := nat_of_ascii c in
      if (n <? 128)%nat then valid tl
      else if between 194 223 n then
        match tl with
        | c1 :: tl1 => continuation c1 && valid tl1
        | _ => false
        end
      else if between 224 239 n then
        match tl with
        | c1 :: c2 :: tl2 => second_of_three n c1 && continuation c2 && valid tl2
        | _ => false
        end
      else if between 240 244 n then
        match tl with
        | c1 :: c2 :: c3 :: tl3 =>
            second_of_four n c1 && continuation c2 && continuation c3 &&
            valid tl3
        | _ => false
        end
      else false
  end.

Definition decodes (s : string) : bool := valid (list_ascii_of_string s).

End Utf8.

Module Tokenizer.

Definition TAB : ascii := "009"%char.
Definition LF : ascii := "010"%char.
Definition CR : ascii := "013"%char.
Definition SPACE : ascii := " "%char.
Definition QUOTE : ascii := "034"%char.

Inductive state : Type :=
| START_RECORD
| WHITESPACE_LINE
| START_FIELD
| IN_FIELD
| IN_QUOTED_FIELD
| QUOTE_IN_QUOTED_FIELD
| EAT_CRNL
| EAT_CRNL_NOP.

(** [field] and [line] are kept in reverse while they grow. *)
Record t : Type := mk {
  st : state;
  field : list ascii;
  line : list string;
  lines : list (list string)
}.

Definition init : t := mk START_RECORD [] [] [].

Definition goto (s : state) (k : t) : t := mk s (field k) (line k) (lines k).
Definition PUSH_CHAR (c : ascii) (k : t) : t :=
  mk (st k) (c :: field k) (line k) (lines k).
Definition END_FIELD (k : t) : t :=
  mk (st k) [] (string_of_list_ascii (rev (field k)) :: line k) (lines k).
Definition END_LINE (k : t) : t :=
  mk START_RECORD [] [] (rev (line k) :: lines k).
Definition drop_field (k : t) : t := mk (st k) [] (line k) (lines k).

Definition in_field (c : ascii) (k : t) : t :=
  if Ascii.eqb c LF then END_LINE (END_FIELD k)
  else if Ascii.eqb c CR then goto EAT_CRNL (END_FIELD k)
  else if Ascii.eqb c TAB then goto START_FIELD (END_FIELD k)
  else PUSH_CHAR c k.

Definition start_field (c : ascii) (k : t) : t :=
  if Ascii.eqb c LF then END_LINE (END_FIELD k)
  else if Ascii.eqb c CR then goto EAT_CRNL (END_FIELD k)
  else if Ascii.eqb c QUOTE then goto IN_QUOTED_FIELD k
  else if Ascii.eqb c TAB then END_FIELD k
  else goto IN_FIELD (PUSH_CHAR c k).

Definition start_record (c : ascii) (k : t) : t :=
  if Ascii.eqb c LF then k
  else if Ascii.eqb c CR then goto EAT_CRNL_NOP k
  else if Ascii.eqb c SPACE then goto WHITESPACE_LINE (PUSH_CHAR c k)
  else start_field c (goto START_FIELD k).

Definition feed (k : t) (c : ascii) : t :=
  match st k with
  | START_RECORD => start_record c k
  | WHITESPACE_LINE =>
      if Ascii.eqb c LF then goto START_RECORD (drop_field k)
      else if Ascii.eqb c CR then goto EAT_CRNL_NOP (drop_field k)
      else if Ascii.eqb c SPACE then PUSH_CHAR c k
      else in_field c (goto IN_FIELD k)
  | START_FIELD => start_field c k
  | IN_FIELD => in_field c k
  | IN_QUOTED_FIELD =>
      if Ascii.eqb c QUOTE then goto QUOTE_IN_QUOTED_FIELD k
      else PUSH_CHAR c k
  | QUOTE_IN_QUOTED_FIELD =>
      if Ascii.eqb c QUOTE then goto IN_QUOTED_FIELD (PUSH_CHAR c k)
      else if Ascii.eqb c TAB then goto START_FIELD (END_FIELD k)
      else if Ascii.eqb c LF then END_LINE (END_FIELD k)
      else if Ascii.eqb c CR then goto EAT_CRNL (END_FIELD k)
      else goto IN_FIELD (PUSH_CHAR c k)
  | EAT_CRNL =>
      if Ascii.eqb c LF then END_LINE k
      else if Ascii.eqb c TAB then goto START_FIELD (END_FIELD (END_LINE k))
      else start_record c (END_LINE k)
  | EAT_CRNL_NOP =>
      if Ascii.eqb c LF then goto START_RECORD k
      else start_record c (goto START_RECORD k)
  end.

Definition handle_eof (k : t) : result (list (list string)) :=
  match st k with
  | START_RECORD | WHITESPACE_LINE | EAT_CRNL_NOP => inr (rev (lines k))
  | IN_QUOTED_FIELD => inl ParserError
  | IN_FIELD | START_FIELD | QUOTE_IN_QUOTED_FIELD =>
      inr (rev (lines (END_LINE (END_FIELD k))))
  | EAT_CRNL => inr (rev (lines (END_LINE k)))
  end.

(** A byte order mark at the start of the file is skipped. *)
Definition skip_bom (l : list ascii) : list ascii :=
  match l with
  | a :: b :: c :: tl =>
      if Ascii.eqb a "239"%char && Ascii.eqb b "187"%char &&
         Ascii.eqb c "191"%char
      then tl else l
  | _ => l
  end.

Definition tokenize (text : string) : result (list (list string)) :=
  handle_eof (fold_left feed (skip_bom (list_ascii_of_string text)) init).

End Tokenizer.

(** The records of a dataset file; the first is the header, the others are
    its data rows. *)
Definition records (text : string) : list (list string) :=
  match Tokenizer.tokenize text with
  | inr rs => rs
  | inl _ => []
  end.
Definition data_rows (text : string) : list (list string) := tl (records text).

(** *** Column type inference *)

Module Infer.

Definition is_digit (c : ascii) : bool :=
  let n := nat_of_ascii c in (48 <=? n)%nat && (n <=? 57)%nat.
Definition is_sign (c : ascii) : bool :=
  Ascii.eqb c "+"%char || Ascii.eqb c "-"%char.

Fixpoint lstrip (l : list ascii) : list ascii :=
  match l with
  | c :: tl => if Ascii.eqb c " "%char then lstrip tl else l
  | [] => []
  end.
Definition strip (l : list ascii) : list ascii :=
  rev (lstrip (rev (lstrip l))).

Fixpoint span_digits (l : list ascii) : list ascii * list ascii :=
  match l with
  | c :: tl =>
      if is_digit c then let (d, r) := span_digits tl in (c :: d, r)
      else ([], l)
  | [] => ([], [])
  end.

Definition unsign (l : list ascii) : list ascii :=
  match l with
  | c :: tl => if is_sign c then tl else l
  | [] => []
  end.

Definition nonempty {A} (l : list A) : bool :=
  match l with [] => false | _ => true end.
Definition empty {A} (l : list A) : bool := negb (nonempty l).

Definition is_int (s : string) : bool :=
  let (d, r) := span_digits (unsign (strip (list_ascii_of_string s))) in
  nonempty d && empty r.

Definition exponent_ok (l : list ascii) : bool :=
  match l with
  | [] => true
  | c :: tl =>
      if Ascii.eqb c "e"%char || Ascii.eqb c "E"%char then
        let (d, r) := span_digits (unsign tl) in nonempty d && empty r
      else false
  end.

Definition is_decimal (s : string) : bool :=
  let (i, r) := span_digits (unsign (strip (list_ascii_of_string s))) in
  match r with
  | c :: tl =>
      if Ascii.eqb c "."%char then
        let (f, r') := span_digits tl in
        (nonempty i || nonempty f) && exponent_ok r'
      else nonempty i && exponent_ok r
  | [] => nonempty i
  end.

(** The words for the infinities, in any case of their letters. *)
Definition infinities : list string :=
  ["inf"; "+inf"; "-inf"; "infinity"; "+infinity"; "-infinity"].
Definition is_inf (s : string) : bool :=
  existsb (String.eqb (casefold s)) infinities.

Definition is_float (s : string) : bool := is_decimal s || is_inf s.

Definition na_values : list string :=
  [""; "#N/A"; "#N/A N/A"; "#NA"; "-1.#IND"; "-1.#QNAN"; "-NaN"; "-nan";
   "1.#IND"; "1.#QNAN"; "<NA>"; "N/A"; "NA"; "NULL"; "NaN"; "None"; "n/a";
   "nan"; "null"].
Definition is_na (s : string) : bool := existsb (String.eqb s) na_values.

Definition true_values : list string := ["True"; "TRUE"; "true"].
Definition false_values : list string := ["False"; "FALSE"; "false"].
Definition is_bool (s : string) : bool :=
  existsb (String.eqb s) true_values || existsb (String.eqb s) false_values.

Definition digit_value (c : ascii) : Z := Z.of_nat (nat_of_ascii c - 48).

Definition int_of (s : string) : Z :=
  let l := strip (list_ascii_of_string s) in
  let mag := fold_left (fun acc c => (10 * acc + digit_value c)%Z)
                       (fst (span_digits (unsign l))) 0%Z in
  match l with
  | c :: _ => if Ascii.eqb c "-"%char then (- mag)%Z else mag
  | [] => mag
  end.

Definition is_minus (s : string) : bool :=
  match strip (list_ascii_of_string s) with
  | c :: _ => Ascii.eqb c "-"%char
  | [] => false
  end.

Definition fits_int64 (z : Z) : bool :=
  (-9223372036854775808 <=? z)%Z && (z <=? 9223372036854775807)%Z.
Definition fits_uint64 (z : Z) : bool :=
  (0 <=? z)%Z && (z <=? 18446744073709551615)%Z.

(** A column of integers is [int64] when all of them fit, [uint64] when
    one is too large for that but none is written with a minus sign and all
    fit in 64 bits without sign, and is left as text otherwise. *)
Definition infer_int (col : list string) : dtype :=
  if forallb (fun s => fits_int64 (int_of s)) col then int64
  else if forallb (fun s => negb (is_minus s) && fits_uint64 (int_of s)) col
  then uint64
  else object.

(** Integers first, then floats (a missing value turns an integer column
    into a float column), then booleans, and text otherwise. *)
Definition infer (col : list string) : dtype :=
  if empty col then object
  else if forallb is_int col then infer_int col
  else if forallb (fun s => is_na s || is_float s) col then float64
  else if forallb is_bool col then bool_
  else object.

Definition convert (d : dtype) (s : string) : cell :=
  match d with
  | int64 | uint64 => IntCell (int_of s)
  | float64 => if is_na s then NaN else FloatCell s
  | bool_ => BoolCell (existsb (String.eqb s) true_values)
  | object => if is_na s then NaN else StrCell s
  end.

End Infer.

(** *** Column names

    An empty name in the header becomes [Unnamed: i], and a name that has
    been given to a column before gets a suffix [.1], [.2] and so on, the
    first that is not a name of the header; the columns with a name of
    their own are dealt with before the unnamed ones. *)

Module Header.

Definition decimal (n : nat) : string := NilZero.string_of_uint (Nat.to_uint n).
Definition unnamed (i : nat) : string := ("Unnamed: " ++ decimal i)%string.

Definition counts : Type := list (string * nat).

Fixpoint get (name : string) (cs : counts) : nat :=
  match cs with
  | [] => 0
  | (n, c) :: tl => if String.eqb n name then c else get name tl
  end.
Definition put (name : string) (c : nat) (cs : counts) : counts := (name, c) :: cs.

Fixpoint update {A} (i : nat) (x : A) (l : list A) : list A :=
  match l, i with
  | [], _ => []
  | _ :: tl, O => x :: tl
  | y :: tl, S k => y :: update k x tl
  end.

(** [while cur_count > 0]: the loop is entered with [S k] for the count.
    The names it tries are all different and only a name found in the
    header makes it go on, so it ends within as many rounds as the header
    has names, and one more. *)
Fixpoint next_free (fuel : nat) (old_col : string) (k : nat)
         (this_header : list string) (cs : counts) : string * counts :=
  let cs1 := put old_col (S (S k)) cs in
  let col := (old_col ++ "." ++ decimal (S k))%string in
  let cur_count :=
    if existsb (String.eqb col) this_header then S (S k) else get col cs1 in
  match cur_count, fuel with
  | S k', S fuel' => next_free fuel' old_col k' this_header cs1
  | _, _ => (col, cs1)
  end.

Definition mangle_one (st : list string * counts) (i : nat)
  : list string * counts :=
  let (this_header, cs) := st in
  let col := nth i this_header "" in
  match get col cs with
  | O => (this_header, put col 1 cs)
  | S k =>
      let (col', cs') := next_free (S (length this_header)) col k this_header cs in
      (update i col' this_header, put col' 1 cs')
  end.

Definition names (header : list string) : list string :=
  let ixs := seq 0 (length header) in
  let is_unnamed := fun i => String.eqb (nth i header "") "" in
  let this_header :=
    map (fun i => if is_unnamed i then unnamed i else nth i header "") ixs in
  let col_loop_order :=
    filter (fun i => negb (is_unnamed i)) ixs ++ filter is_unnamed ixs in
  fst (fold_left mangle_one col_loop_order (this_header, [])).

End Header.

(** *** From records to a frame

    The first record gives the column names.  A data row shorter than the
    table is padded with missing values.  The first data row may be wider
    than the header, in which case the extra leading fields of every row are
    row labels; any later row wider than that is a parser error. *)

Fixpoint pad (n : nat) (r : list string) : list string :=
  match n, r with
  | O, _ => []
  | S k, [] => "" :: pad k []
  | S k, x :: tl => x :: pad k tl
  end.

Definition table_width (header : list string) (body : list (list string)) : nat :=
  match body with
  | [] => length header
  | first :: _ => Nat.max (length header) (length first)
  end.

Definition column (j : nat) (body : list (list string)) : list string :=
  map (fun r => nth j r "") body.

Definition frame_of_records (rs : list (list string)) : result DataFrame :=
  match rs with
  | [] => inl EmptyDataError
  | header :: body =>
      let width := table_width header body in
      if existsb (fun r => (width <? length r)%nat) body then inl ParserError
      else
        let leading := (width - length header)%nat in
        let padded := map (pad width) body in
        let data := map (skipn leading) padded in
        let dtypes :=
          map (fun j => Infer.infer (column j data)) (seq 0 (length header)) in
        inr (mkDataFrame
               (if (leading =? 0)%nat then RangeIndex (length body)
                else Labels leading (map (firstn leading) padded))
               (combine (Header.names header) dtypes)
               (map (fun r => map (fun jd => Infer.convert (snd jd) (nth (fst jd) r ""))
                                  (combine (seq 0 (length header)) dtypes))
                    data))
  end.

(** The header is decoded when the parser is set up, the cells when the
    rows have been split; a field that is not UTF-8 is an error. *)
Definition parse_tsv (text : string) : result DataFrame :=
  match Tokenizer.tokenize text with
  | inr rs =>
      if forallb Utf8.decodes (hd [] rs) then
        match frame_of_records rs with
        | inr df =>
            if forallb (forallb Utf8.decodes) rs then inr df
            else inl UnicodeDecodeError
        | inl e => inl e
        end
      else inl UnicodeDecodeError
  | inl e => inl e
  end.

(** [pd.read_csv(tsv_file, sep='\t')] on an entry of the script's
    directory.  A container file is binary and is taken not to decode as
    text. *)
Definition read_csv (name : string) : M DataFrame :=
  fun w =>
    match lookup name (script_dir w) with
    | None => Raised FileNotFoundError w
    | Some (Dir _) => Raised (open_directory (os w)) w
    | Some (File (Bytes text)) =>
        match parse_tsv text with
        | inr df => Done df w
        | inl e => Raised e w
        end
    | Some (File _) => Raised UnicodeDecodeError w
    end.

(** ** [platformdirs.user_data_dir(appname, appauthor)]

    The application's directory below the platform's base directory for
    user data; on Windows the vendor name comes in between. *)
Definition user_data_dir (appname appauthor : string) : M path :=
  fun w => Done (match os w with
                 | Windows => data_base w ++ [appauthor; appname]
                 | Linux | MacOS => data_base w ++ [appname]
                 end) w.

(** ** [Path.mkdir(parents, exist_ok)] *)

(** [os.mkdir]: the parent must be a directory and the name must be free. *)
Definition os_mkdir (p : path) (fs : listing) : result listing :=
  match split_last p with
  | None => inl FileExistsError
  | Some (parent, leaf) =>
      within parent
        (fun d => match lookup leaf d with
                  | Some _ => inl FileExistsError
                  | None => inr (set leaf (Dir []) d)
                  end) fs
  end.

(** The [except OSError] clause: an error is swallowed when [exist_ok] is
    set and the path is a directory. *)
Definition tolerate (exist_ok : bool) (p : path) (e : exn) (fs : listing)
  : result listing :=
  if exist_ok && is_dir (resolve p (Dir fs)) then inr fs else inl e.

(** [self.mkdir(mode, parents=False, exist_ok=exist_ok)] *)
Definition mkdir_plain (exist_ok : bool) (p : path) (fs : listing)
  : result listing :=
  match os_mkdir p fs with
  | inr fs' => inr fs'
  | inl e => if is_FileNotFoundError e then inl e else tolerate exist_ok p e fs
  end.

(** The recursion of [Path.mkdir] goes to the parent, so it runs on the
    path read from its last component. *)
Fixpoint mkdir_up (parents exist_ok : bool) (rp : list string) (fs : listing)
  : result listing :=
  match os_mkdir (rev rp) fs with
  | inr fs' => inr fs'
  | inl e =>
      if is_FileNotFoundError e then
        match rp with
        | [] => inl e
        | _ :: rparent =>
            if parents then
              match mkdir_up true true rparent fs with
              | inr fs1 => mkdir_plain exist_ok (rev rp) fs1
              | inl e' => inl e'
              end
            else inl e
        end
      else tolerate exist_ok (rev rp) e fs
  end.

Definition Path_mkdir (parents exist_ok : bool) (p : path) (fs : listing)
  : result listing :=
  mkdir_up parents exist_ok (rev p) fs.

Definition mkdir (p : path) (parents exist_ok : bool) : M unit :=
  on_data_root (Path_mkdir parents exist_ok p).

(** ** [sqlite3] and [DataFrame.to_sql] *)

Module Sql.

Inductive if_exists_mode : Type := fail | replace | append.

Definition sql_type (d : dtype) : sqltype :=
  match d with
  | int64 | uint64 | bool_ => INTEGER
  | float64 => REAL
  | object => TEXT
  end.

Fixpoint lookup_table (name : string) (db : database) : option table :=
  match db with
  | [] => None
  | (n, t) :: tl => if String.eqb n name then Some t else lookup_table name tl
  end.

Definition drop_table (name : string) (db : database) : database :=
  filter (fun e => negb (String.eqb (fst e) name)) db.

Definition count_tables (name : string) (db : database) : nat :=
  length (filter (fun e => String.eqb (fst e) name) db).

Fixpoint insert_rows (name : string) (new : list (list cell)) (db : database)
  : database :=
  match db with
  | [] => []
  | (n, t) :: tl =>
      if String.eqb n name then (n, mkTable (schema t) (rows t ++ new)) :: tl
      else (n, t) :: insert_rows name new tl
  end.

(** The row labels as leading columns, when [index=True]: one column
    [index], or one column [level_i] for each level when there are
    several. *)
Definition level_name (i : nat) : string :=
  "level_" ++ NilZero.string_of_uint (Nat.to_uint i).

Definition index_schema (ix : Index) : list (string * sqltype) :=
  match ix with
  | RangeIndex _ => [("index", INTEGER)]
  | Labels 1 _ => [("index", TEXT)]
  | Labels k _ => map (fun i => (level_name i, TEXT)) (seq 0 k)
  end.
Definition index_cells (ix : Index) (i : nat) : list cell :=
  match ix with
  | RangeIndex _ => [IntCell (Z.of_nat i)]
  | Labels _ ls => map StrCell (nth i ls [])
  end.

Definition frame_table (index : bool) (df : DataFrame) : table :=
  let cols := map (fun c => (fst c, sql_type (snd c))) (columns df) in
  if index then
    mkTable (index_schema (Table.index df) ++ cols)
            (map (fun ir => index_cells (Table.index df) (fst ir) ++ snd ir)
                 (combine (seq 0 (length (values df))) (values df)))
  else mkTable cols (values df).

(** [pandas] quotes every column name before it sends anything to the
    database, and refuses a name that is empty or holds a NUL. *)
Definition NUL : ascii := "000"%char.

Fixpoint has_nul (s : string) : bool :=
  match s with
  | EmptyString => false
  | String c tl => Ascii.eqb c NUL || has_nul tl
  end.

Definition valid_name (s : string) : bool :=
  negb (String.eqb s "") && negb (has_nul s).

Definition table_setup (index : bool) (df : DataFrame) : result table :=
  let t := frame_table index df in
  if forallb valid_name (map fst (schema t)) then inr t else inl ValueError.

(** SQLite compares the names of tables and columns without regard to the
    case of the letters A to Z. *)
Definition same_name (a b : string) : bool :=
  String.eqb (casefold a) (casefold b).

Fixpoint distinct (names : list string) : bool :=
  match names with
  | [] => true
  | n :: tl => negb (existsb (same_name n) tl) && distinct tl
  end.

(** The default limit on the number of columns of a table. *)
Definition SQLITE_MAX_COLUMN : nat := 2000.

Definition columns_ok (cols : list (string * sqltype)) : bool :=
  (1 <=? length cols)%nat && (length cols <=? SQLITE_MAX_COLUMN)%nat &&
  distinct (map fst cols).

(** A statement changes the database, or fails and leaves it as it is. *)
Definition statement : Type := database -> result database.

Definition DROP_TABLE (name : string) : statement :=
  fun db => inr (drop_table name db).

(** [CREATE TABLE]: the name must be free, there must be a column, not too
    many of them, and no two of the same name. *)
Definition CREATE_TABLE (name : string) (cols : list (string * sqltype))
  : statement :=
  fun db =>
    if existsb (fun e => same_name (fst e) name) db then inl OperationalError
    else if columns_ok cols then inr (db ++ [(name, mkTable cols [])])
    else inl OperationalError.

(** An [INTEGER] holds a signed number of 64 bits; binding a larger one
    fails. *)
Definition in_int64 (z : Z) : bool :=
  (-9223372036854775808 <=? z)%Z && (z <=? 9223372036854775807)%Z.

Definition bindable (c : cell) : bool :=
  match c with
  | IntCell z => in_int64 z
  | _ => true
  end.

(** [INSERT] of all rows in one transaction: when binding a cell fails,
    the rows before it are rolled back. *)
Definition INSERT (name : string) (new : list (list cell)) : statement :=
  fun db =>
    if forallb (forallb bindable) new then inr (insert_rows name new db)
    else inl OverflowError.

(** A frame that can be stored: what [table_setup], [CREATE_TABLE] and
    [INSERT] ask of it. *)
Definition storable (df : DataFrame) : bool :=
  forallb valid_name (map fst (columns df)) &&
  columns_ok (schema (frame_table false df)) &&
  forallb (forallb bindable) (values df).

(** The write of [df] as table [name] with [if_exists='replace'] and
    [index=False] goes through on the database [db]. *)
Definition writable (name : string) (df : DataFrame) (db : database) : bool :=
  match table_setup false df with
  | inr t =>
      match CREATE_TABLE name (schema t) (drop_table name db) with
      | inr _ => forallb (forallb bindable) (rows t)
      | inl _ => false
      end
  | inl _ => false
  end.

(** No table of the database has a name that differs from [name] in the
    case of its letters only. *)
Definition admits (name : string) (db : database) : bool :=
  forallb (fun e => implb (same_name (fst e) name) (String.eqb (fst e) name)) db.

End Sql.

(** [sqlite3.connect(db_path)]: the file is created empty when there is
    none; a directory cannot be opened. *)
Definition connect (p : path) : M path :=
  fun w =>
    match resolve p (Dir (data_root w)), split_last p with
    | Some (File _), _ => Done p w
    | None, Some (parent, leaf) =>
        match within parent (fun d => inr (set leaf (File (Bytes "")) d))
                     (data_root w) with
        | inr fs => Done p (with_data_root fs w)
        | inl _ => Raised OperationalError w
        end
    | _, _ => Raised OperationalError w
    end.

(** The database that SQLite sees in a file.  An empty file is an empty
    database and other bytes are not a database, except that the Unix
    builds take a file of a single byte for an empty one. *)
Definition database_in (pf : platform) (d : payload) : option database :=
  match d with
  | Sqlite db => Some db
  | Bytes "" => Some []
  | Bytes (String _ "") =>
      match pf with
      | Windows => None
      | Linux | MacOS => Some []
      end
  | _ => None
  end.

(** The database behind a connection, read by its first statement. *)
Definition load (con : path) : M database :=
  fun w =>
    match resolve con (Dir (data_root w)) with
    | Some (File d) =>
        match database_in (os w) d with
        | Some db => Done db w
        | None => Raised DatabaseError w
        end
    | _ => Raised OperationalError w
    end.

Definition commit (con : path) (db : database) : M unit :=
  match split_last con with
  | Some (parent, leaf) =>
      on_data_root (within parent (fun d => inr (set leaf (File (Sqlite db)) d)))
  | None => raise OperationalError
  end.

Definition lift {A} (r : result A) : M A :=
  match r with
  | inr a => ret a
  | inl e => raise e
  end.

(** One statement on the database [db] of the connection.  Nothing is
    pending when it starts, so its effect is in the file when it
    returns. *)
Definition execute (con : path) (stmt : Sql.statement) (db : database)
  : M database :=
  match stmt db with
  | inr db' => commit con db' ;; ret db'
  | inl e => raise e
  end.

(** [df.to_sql(name, con, if_exists=mode, index=index)]: the table is set
    up from the frame, then looked for in the database, dropped and created
    as [mode] says, and filled.  A step that fails leaves what the steps
    before it have done. *)
Definition to_sql (df : DataFrame) (name : string) (con : path)
           (mode : Sql.if_exists_mode) (index : bool) : M unit :=
  t <- lift (Sql.table_setup index df) ;;
  db <- load con ;;
  db1 <- match Sql.lookup_table name db, mode with
         | None, _ => execute con (Sql.CREATE_TABLE name (schema t)) db
         | Some _, Sql.fail => raise ValueError
         | Some _, Sql.replace =>
             db' <- execute con (Sql.DROP_TABLE name) db ;;
             execute con (Sql.CREATE_TABLE name (schema t)) db'
         | Some _, Sql.append => ret db
         end ;;
  execute con (Sql.INSERT name (rows t)) db1 ;;
  ret tt.

(** ** The script

    [tsv_file] and [zip_path] are entries of the script's directory and
    are named by their last component; the messages print paths relative
    to the directory they belong to. *)

Definition tsv_file : string := "opennutrition_foods.tsv".
Definition zip_url : string :=
  "https://downloads.opennutrition.app/opennutrition-dataset-2025.1.zip".
Definition zip_path : string := "opennutrition-dataset-2025.1.zip".

(** Lines 33-39: the inner loop over the files of one directory.  A path
    below the script's directory equals [tsv_file] exactly when it is the
    top-level entry of that name.  The [break] ends this loop only. *)
Fixpoint scan_files (root : path) (files : list string) : M unit :=
  match files with
  | [] => ret tt
  | file :: rest =>
      if String.eqb file "opennutrition_foods.tsv" then
        let extracted_tsv := root ++ [file] in
        if negb (path_eqb extracted_tsv [tsv_file]) then
          rename extracted_tsv tsv_file ;;
          print ("Moved " ++ file ++ " to " ++ tsv_file)
        else ret tt
      else scan_files root rest
  end.

(** Lines 32-39: the outer loop over [os.walk(script_dir)]. *)
Definition find_tsv : M unit :=
  visits <- os_walk ;;
  for_each visits (fun v => scan_files (fst (fst v)) (snd v)).

(** Lines 16-39: download, unzip, and bring the dataset to the top. *)
Definition fetch_and_unpack : M unit :=
  urlretrieve zip_url zip_path ;;
  print ("Downloaded " ++ zip_path) ;;
  zip_ref <- ZipFile zip_path ;;
  extractall zip_ref ;;
  print "Extracted files" ;;
  find_tsv.

(** Lines 47-48: the body of the second loop. *)
Definition remove_notice (item : string) : M unit :=
  if startswith item "LICENSE" || startswith item "README" then unlink item
  else ret tt.

(** Lines 46-48 *)
Definition remove_notices : M unit :=
  items <- iterdir ;;
  for_each items remove_notice.

(** Lines 42-48 *)
Definition cleanup : M unit :=
  unlink zip_path ;;
  print "Removed zip file" ;;
  remove_notices.

(** Lines 13-50 *)
Definition acquisition : M unit :=
  present <- exists_ tsv_file ;;
  if negb present then
    print "opennutrition_foods.tsv not found. Downloading..." ;;
    fetch_and_unpack ;;
    cleanup ;;
    print "Setup complete!"
  else ret tt.

(** Lines 60-63 *)
Definition write_database (df : DataFrame) (app_data_dir : path) : M unit :=
  let db_path := app_data_dir ++ ["opennutrition_foods.db"] in
  con <- connect db_path ;;
  to_sql df "opennutrition_foods" con Sql.replace false ;;
  print ("Database created at: " ++ String.concat "/" db_path).

(** Lines 57-63 *)
Definition storage (df : DataFrame) : M unit :=
  app_data_dir <- user_data_dir "DailyMealPlannerExtended" "DailyMealPlanner" ;;
  mkdir app_data_dir true true ;;
  write_database df app_data_dir.

Definition main : M unit :=
  acquisition ;;
  df <- read_csv tsv_file ;;
  storage df.

(** The path of the database file in a given world. *)
Definition db_path (w : world) : path :=
  match user_data_dir "DailyMealPlannerExtended" "DailyMealPlanner" w with
  | Done d _ => d ++ ["opennutrition_foods.db"]
  | Raised _ _ => []
  end.

(** ** Sample data *)

Module Sample.

Definition tab : string := String Tokenizer.TAB "".
Definition nl : string := String Tokenizer.LF "".
Definition row (fields : list string) : string := String.concat tab fields ++ nl.

(** The three-row fixture. *)
Definition fixture : string :=
  row ["name"; "calories"; "protein"] ++
  row ["Apple"; "52"; "0.3"] ++
  row ["Banana"; "89"; "1.1"] ++
  row ["Carrot"; "41"; "0.9"].


Definition archive : payload :=
  Zip [ (["README.txt"], Some (Bytes "read me"));
        (["LICENSE"], Some (Bytes "licence"));
        (["opennutrition-dataset-2025.1"], None);
        (["opennutrition-dataset-2025.1"; "opennutrition_foods.tsv"],
         Some (Bytes fixture)) ].

(** A fresh checkout on Linux: the script alone in its directory, and a
    home directory without [.local/share]. *)
Definition fresh : world :=
  mkWorld Linux (fun _ => Served archive)
          [("convert.py", File (Bytes "import pathlib"))]
          [("home", Dir [("user", Dir [])])]
          ["home"; "user"; ".local"; "share"]
          [].

End Sample.

(** ** Observations used in the statements *)




(** The names the cleanup step goes after. *)
Definition notice (name : string) : bool :=
  startswith name "LICENSE" || startswith name "README".
Definition doomed (name : string) : bool :=
  String.eqb name zip_path || notice name.

(** No component on the way to [p] is a file. *)
Fixpoint unobstructed (p : path) (x : node) : bool :=
  match x with
  | File _ => false
  | Dir es =>
      match p with
      | [] => true
      | c :: rest =>
          match lookup c es with
          | Some y => unobstructed rest y
          | None => true
          end
      end
  end.

Definition app_data_dir (w : world) : path :=
  match user_data_dir "DailyMealPlannerExtended" "DailyMealPlanner" w with
  | Done d _ => d
  | Raised _ _ => []
  end.


(** The archive lists a regular file called [name], in any folder. *)
Definition named_file (name : string) (m : member) : bool :=
  match snd m, split_last (fst m) with
  | Some _, Some (_, leaf) => String.eqb leaf name
  | _, _ => false
  end.
Definition archive_has_file (name : string) (ms : list member) : bool :=
  existsb (named_file name) ms.

(** An entry that is a file called [name], or a directory that holds one. *)
Definition entry_holds (name : string) (e : string * node) : bool :=
  match snd e with
  | File _ => String.eqb (fst e) name
  | Dir _ => holds_file name (snd e)
  end.

(** Lines 14-39: what the acquisition does before it starts to clean up. *)
Definition until_cleanup : M unit :=
  print "opennutrition_foods.tsv not found. Downloading..." ;;
  fetch_and_unpack.

Definition entry_of (name : string) (w : world) : option node :=
  lookup name (script_dir w).

Definition mem (name : string) (names : list string) : bool :=
  existsb (String.eqb name) names.

(** Induction on trees: a property of a directory may rely on it for
    everything the directory holds. *)
Fixpoint node_induction (P : node -> Prop)
    (HF : forall d, P (File d))
    (HD : forall es, Forall (fun e => P (snd e)) es -> P (Dir es))
    (x : node) : P x :=
  match x with
  | File d => HF d
  | Dir es =>
      HD es ((fix all (l : listing) : Forall (fun e => P (snd e)) l :=
                match l with
                | [] => Forall_nil _
                | e :: tl =>
                    Forall_cons e (node_induction P HF HD (snd e)) (all tl)
                end) es)
  end.

Module Scenario.

Import Sample.

(** After unpacking an archive with a copy of the dataset in each of two
    folders. *)
Definition two_copies (pf : platform) : world :=
  mkWorld pf (fun _ => Unreachable)
          [("convert.py", File (Bytes "import pathlib"));
           (zip_path, File (Zip []));
           ("a", Dir [(tsv_file, File (Bytes "A"))]);
           ("b", Dir [(tsv_file, File (Bytes "B"))])]
          [] [] [].

(** A checkout that keeps an older copy of the dataset in a folder of its
    own, and a server whose archive has no dataset in it. *)
Definition stale_archive : list member :=
  [ (["README.txt"], Some (Bytes "read me")) ].

Definition stale : world :=
  mkWorld Linux (fun _ => Served (Zip stale_archive))
          [("convert.py", File (Bytes "import pathlib"));
           ("backup", Dir [(tsv_file, File (Bytes fixture))])]
          [("home", Dir [("user", Dir [])])]
          ["home"; "user"; ".local"; "share"]
          [].

End Scenario.

(** A tree is well formed when no directory lists a name twice. *)
Fixpoint unique (names : list string) : bool :=
  match names with
  | [] => true
  | n :: tl => negb (mem n tl) && unique tl
  end.

Fixpoint wf (x : node) : bool :=
  match x with
  | File _ => true
  | Dir es =>
      unique (map fst es) &&
      (fix all (l : listing) : bool :=
         match l with
         | [] => true
         | (_, y) :: tl => wf y && all tl
         end) es
  end.

(** The dataset is at its place, as a regular file. *)
Definition dataset_in_place (w : world) : Prop :=
  is_file (lookup tsv_file (script_dir w)) = true.

(** During the search: the dataset has been brought to its place, or the
    directory is still what it was when the walk started. *)
Definition untouched_or_found (es0 : listing) (w : world) : Prop :=
  dataset_in_place w \/ script_dir w = es0.

Module Rerun.

Import Sample.

(** An archive whose second member cannot be unpacked next to the
    script: it wants a folder where [convert.py] stands. *)
Definition clashing_archive : list member :=
  [ ([tsv_file], Some (Bytes fixture));
    (["convert.py"; "notes.txt"], Some (Bytes "notes")) ].

Definition first_try : world :=
  mkWorld Linux (fun _ => Served (Zip clashing_archive))
          [("convert.py", File (Bytes "import pathlib"))]
          [("home", Dir [("user", Dir [])])]
          ["home"; "user"; ".local"; "share"]
          [].

(** What the first, failed run leaves behind. *)
Definition second_try : world := final (main first_try).

End Rerun.

Module Fixtures.

Import Sample.

(** The state in which a first run on a fresh checkout ends. *)
Definition settled : world := final (main fresh).

(** A fresh checkout, and a server whose archive has no dataset. *)
Definition empty_handed : world :=
  mkWorld Linux (fun _ => Served (Zip Scenario.stale_archive))
          [("convert.py", File (Bytes "import pathlib"))]
          [("home", Dir [("user", Dir [])])]
          ["home"; "user"; ".local"; "share"]
          [].

(** A fresh checkout, and an archive that ships its notices in a folder
    called README. *)
Definition readme_folder : world :=
  mkWorld Linux
          (fun _ => Served (Zip [ (["README"; "notes.txt"], Some (Bytes "notes"));
                                  ([tsv_file], Some (Bytes fixture)) ]))
          [("convert.py", File (Bytes "import pathlib"))]
          [("home", Dir [("user", Dir [])])]
          ["home"; "user"; ".local"; "share"]
          [].

Definition unpacked : world := final (until_cleanup readme_folder).

(** The members of the sample archive, and the state after the
    acquisition on a fresh checkout. *)
Definition members : list member :=
  match archive with
  | Zip ms => ms
  | _ => []
  end.
Definition acquired : world := final (acquisition fresh).

Definition sample_frame : DataFrame :=
  mkDataFrame (RangeIndex 1) [("name", object)] [[StrCell "Apple"]].

End Fixtures.

(** ** Observations used in the further statements *)

(** The URLs requested so far, oldest first. *)
Fixpoint requests (t : list event) : list string :=
  match t with
  | [] => []
  | Request url :: tl => url :: requests tl
  | Print _ :: tl => requests tl
  end.

Definition sent (w : world) : list string := requests (trace w).

(** The content of the top-level file [name], if there is such a file. *)
Definition file_at (name : string) (w : world) : option payload :=
  match lookup name (script_dir w) with
  | Some (File d) => Some d
  | _ => None
  end.

(** A text of [n] empty lines. *)
Fixpoint blank_lines (n : nat) : string :=
  match n with
  | O => ""
  | S k => String Tokenizer.LF (blank_lines k)
  end.

(** The server's answer is not a zip archive. *)
Definition no_archive (r : response) : bool :=
  match r with
  | Served (Zip _) => false
  | _ => true
  end.

Definition present (x : option node) : bool :=
  match x with Some _ => true | None => false end.

(** One step of the walk: a directory, the names of its sub-directories and
    the names of its files. *)
Definition visit : Type := (path * list string * list string)%type.
Definition root_of (v : visit) : path := fst (fst v).

(** A visit of a folder below the top that lists the dataset. *)
Definition is_copy (v : visit) : bool :=
  mem tsv_file (snd v) &&
  match root_of v with
  | [] => false
  | _ :: _ => true
  end.

(** The folder of the last copy of the dataset on the walk, if any. *)
Fixpoint last_copy (visits : list visit) : option path :=
  match visits with
  | [] => None
  | v :: rest =>
      match last_copy rest with
      | Some r => Some r
      | None => if is_copy v then Some (root_of v) else None
      end
  end.

Definition payload_of (x : option node) : option payload :=
  match x with
  | Some (File d) => Some d
  | _ => None
  end.

(** Every copy that the search has yet to come to is still the file it
    was in [es0], the directory at the start of the walk. *)
Definition copies_intact (es0 : listing) (visits : list visit) (w : world)
  : Prop :=
  forall v, In v visits -> is_copy v = true ->
    exists d,
      resolve (root_of v ++ [tsv_file]) (Dir es0) = Some (File d) /\
      resolve (root_of v ++ [tsv_file]) (Dir (script_dir w)) = Some (File d).

Module Cases.

Import Sample.

Definition home : listing := [("home", Dir [("user", Dir [])])].
Definition share : path := ["home"; "user"; ".local"; "share"].

(** The dataset file holds two empty lines. *)
Definition empty_dataset : world :=
  mkWorld Linux (fun _ => Unreachable)
          [("convert.py", File (Bytes "import pathlib"));
           (tsv_file, File (Bytes (blank_lines 2)))]
          home share [].

(** A fresh checkout without a network. *)
Definition offline : world :=
  mkWorld Linux (fun _ => Unreachable)
          [("convert.py", File (Bytes "import pathlib"))]
          home share [].

(** A folder stands where the dataset should be. *)
Definition folder_in_place : world :=
  mkWorld Linux (fun _ => Unreachable)
          [("convert.py", File (Bytes "import pathlib"));
           (tsv_file, Dir [])]
          home share [].

(** After download, unpacking and search on a fresh checkout. *)
Definition fetched : world := final (fetch_and_unpack fresh).

(** The script's directory after unpacking a flat archive. *)
Definition flat : world :=
  mkWorld Linux (fun _ => Unreachable)
          [("convert.py", File (Bytes "import pathlib"));
           (zip_path, File (Zip []));
           ("README.txt", File (Bytes "read me"));
           ("LICENSE", File (Bytes "licence"));
           (tsv_file, File (Bytes fixture))]
          home share [].


(** Some other file stands at the path of the database. *)
Definition foreign_file : world :=
  mkWorld Linux (fun _ => Unreachable)
          [("convert.py", File (Bytes "import pathlib"));
           (tsv_file, File (Bytes fixture))]
          [("home", Dir [("user", Dir [(".local", Dir [("share",
             Dir [("DailyMealPlannerExtended",
                   Dir [("opennutrition_foods.db", File (Bytes "notes"))])])])])])]
          share [].


(** The database holds a table whose name is that of the script's table
    in another case. *)
Definition other_case : world :=
  mkWorld Linux (fun _ => Unreachable)
          [("convert.py", File (Bytes "import pathlib"));
           (tsv_file, File (Bytes fixture))]
          [("home", Dir [("user", Dir [(".local", Dir [("share",
             Dir [("DailyMealPlannerExtended",
                   Dir [("opennutrition_foods.db",
                         File (Sqlite [("OpenNutrition_Foods",
                                        mkTable [("name", TEXT)] [])]))])])])])])]
          share [].

(** A file of one byte stands at the path of the database. *)
Definition one_byte : world :=
  mkWorld Linux (fun _ => Unreachable)
          [("convert.py", File (Bytes "import pathlib"));
           (tsv_file, File (Bytes fixture))]
          [("home", Dir [("user", Dir [(".local", Dir [("share",
             Dir [("DailyMealPlannerExtended",
                   Dir [("opennutrition_foods.db", File (Bytes "x"))])])])])])]
          share [].



End Cases.

(** * Properties *)

(** ** Directory entries *)

Section Entries.

Variables (name other : string) (x : node).

Lemma lookup_set_same (es : listing) : lookup name (set name x es) = Some x.
Proof.
  induction es as [|[n y] tl IH]; simpl.
  - now rewrite String.eqb_refl.
  - destruct (String.eqb n name) eqn:E; simpl; rewrite E; auto.
Qed.

Lemma lookup_set_other (es : listing) :
  name <> other -> lookup other (set name x es) = lookup other es.
Proof.
  intros Hne. induction es as [|[n y] tl IH]; simpl.
  - destruct (String.eqb_spec name other); congruence.
  - destruct (String.eqb_spec n name) as [->|]; simpl.
    + destruct (String.eqb_spec name other); congruence.
    + now rewrite IH.
Qed.

Lemma lookup_del_same (es : listing) : lookup name (del name es) = None.
Proof.
  induction es as [|[n y] tl IH]; simpl; auto.
  destruct (String.eqb n name) eqn:E; simpl; auto. now rewrite E.
Qed.

Lemma lookup_del_other (es : listing) :
  name <> other -> lookup other (del name es) = lookup other es.
Proof.
  intros Hne. induction es as [|[n y] tl IH]; simpl; auto.
  destruct (String.eqb_spec n name) as [->|]; simpl.
  - destruct (String.eqb_spec name other); congruence.
  - now rewrite IH.
Qed.

Lemma set_lookup_id (es : listing) :
  lookup name es = Some x -> set name x es = es.
Proof.
  induction es as [|[n y] tl IH]; simpl; [discriminate|].
  destruct (String.eqb n name); intros H.
  - congruence.
  - now rewrite IH.
Qed.

Lemma set_set (y : node) (es : listing) :
  set name x (set name y es) = set name x es.
Proof.
  induction es as [|[n z] tl IH]; simpl.
  - now rewrite String.eqb_refl.
  - destruct (String.eqb n name) eqn:E; simpl; rewrite E; congruence.
Qed.

Lemma lookup_In (es : listing) : lookup name es = Some x -> In (name, x) es.
Proof.
  induction es as [|[n y] tl IH]; simpl; [discriminate|].
  destruct (String.eqb_spec n name) as [->|]; intros H.
  - left. congruence.
  - right. auto.
Qed.

End Entries.

(** ** Outcomes *)

Lemma bind_Done {A B} (m : M A) (k : A -> M B) w b w'' :
  bind m k w = Done b w'' ->
  exists a w', m w = Done a w' /\ k a w' = Done b w''.
Proof.
  unfold bind. destruct (m w) as [a w'|e w']; [eauto | discriminate].
Qed.

Lemma bind_Raised {A B} (m : M A) (k : A -> M B) w e w'' :
  bind m k w = Raised e w'' ->
  m w = Raised e w'' \/ exists a w', m w = Done a w' /\ k a w' = Raised e w''.
Proof.
  unfold bind. destruct (m w) as [a w'|e' w']; intros H.
  - right. exists a, w'. now split.
  - left. now inversion H.
Qed.

(** One statement of a block that ran to its end: [H] speaks of the block,
    afterwards [Hstep] speaks of its first statement, which ends in [w],
    and [H] of the rest. *)
Ltac step H w Hstep := apply bind_Done in H as ([] & w & Hstep & H).

Lemma bind_of_Done {A B} (m : M A) (k : A -> M B) w a w' :
  m w = Done a w' -> bind m k w = k a w'.
Proof. unfold bind. now intros ->. Qed.

Lemma bind_of_Raised {A B} (m : M A) (k : A -> M B) w e w' :
  m w = Raised e w' -> bind m k w = Raised e w'.
Proof. unfold bind. now intros ->. Qed.

(** A computation [keeps] an observation of the world when every run,
    whether it ends well or not, leaves it as it was. *)
Definition keeps {X A} (obs : world -> X) (m : M A) : Prop :=
  forall w, obs (final (m w)) = obs w.

Section Keeps.

Context {X : Type} (obs : world -> X).

Lemma keeps_ret {A} (a : A) : keeps obs (ret a).
Proof. now intros w. Qed.

Lemma keeps_raise {A} (e : exn) : keeps obs (@raise A e).
Proof. now intros w. Qed.

Lemma keeps_bind {A B} (m : M A) (k : A -> M B) :
  keeps obs m -> (forall a, keeps obs (k a)) -> keeps obs (bind m k).
Proof.
  intros Hm Hk w. unfold bind. specialize (Hm w).
  destruct (m w) as [a w'|e w']; simpl in *.
  - now rewrite Hk.
  - exact Hm.
Qed.

Lemma keeps_for_each {A} (xs : list A) (body : A -> M unit) :
  (forall a, keeps obs (body a)) -> keeps obs (for_each xs body).
Proof.
  intros Hb. induction xs; simpl.
  - apply keeps_ret.
  - apply keeps_bind; auto.
Qed.

Lemma keeps_if {A} (b : bool) (m1 m2 : M A) :
  keeps obs m1 -> keeps obs m2 -> keeps obs (if b then m1 else m2).
Proof. now destruct b. Qed.

Lemma keeps_Done {A} (m : M A) w a w' :
  keeps obs m -> m w = Done a w' -> obs w' = obs w.
Proof. intros H E. specialize (H w). now rewrite E in H. Qed.

Lemma keeps_Raised {A} (m : M A) w e w' :
  keeps obs m -> m w = Raised e w' -> obs w' = obs w.
Proof. intros H E. specialize (H w). now rewrite E in H. Qed.

End Keeps.

(** What the acquisition side cannot touch: everything but the script's
    directory and the trace. *)
Definition outside (w : world) : platform * listing * path :=
  (os w, data_root w, data_base w).

Lemma on_script_dir_keeps f : keeps outside (on_script_dir f).
Proof. intros w. unfold on_script_dir. now destruct (f (script_dir w)). Qed.

Lemma print_keeps {X} (obs : world -> X) line :
  (forall ev w, obs (log ev w) = obs w) -> keeps obs (print line).
Proof. intros H w. apply H. Qed.

Lemma urlretrieve_keeps url name : keeps outside (urlretrieve url name).
Proof.
  intros w. unfold urlretrieve.
  destruct (remote w url); simpl; auto.
  - destruct (write_file _ _ _ _); reflexivity.
  - unfold on_script_dir. simpl. destruct (write_file _ _ _ _); reflexivity.
Qed.

Lemma ZipFile_keeps {X} (obs : world -> X) name : keeps obs (ZipFile name).
Proof.
  intros w. unfold ZipFile.
  destruct (lookup name (script_dir w)) as [[[]|]|]; reflexivity.
Qed.

Lemma rename_keeps src dst : keeps outside (rename src dst).
Proof.
  intros w. unfold rename.
  destruct (split_last src) as [[parent leaf]|]; [|reflexivity].
  destruct (resolve src _) as [x|]; [|reflexivity].
  assert (Hmove : forall f, outside (final (on_script_dir f w)) = outside w)
    by (intros f; apply on_script_dir_keeps).
  destruct (lookup dst (script_dir w)) as [[d|[|]]|], x, (os w);
    try reflexivity; apply Hmove.
Qed.

Lemma unlink_keeps name : keeps outside (unlink name).
Proof.
  intros w. unfold unlink.
  destruct (lookup name (script_dir w)) as [[|]|]; reflexivity.
Qed.

Lemma scan_files_keeps root files : keeps outside (scan_files root files).
Proof.
  induction files as [|file rest IH]; simpl.
  - apply keeps_ret.
  - destruct (String.eqb file _); [|exact IH].
    destruct (negb _); [|apply keeps_ret].
    apply keeps_bind; [apply rename_keeps|].
    intros _. now apply print_keeps.
Qed.

Lemma find_tsv_keeps : keeps outside find_tsv.
Proof.
  apply keeps_bind; [now intros w|].
  intros visits. apply keeps_for_each. intros v. apply scan_files_keeps.
Qed.

Lemma extractall_keeps ms : keeps outside (extractall ms).
Proof. apply keeps_for_each. intros m. apply on_script_dir_keeps. Qed.

Lemma fetch_and_unpack_keeps : keeps outside fetch_and_unpack.
Proof.
  unfold fetch_and_unpack.
  apply keeps_bind; [apply urlretrieve_keeps|intros _].
  apply keeps_bind; [now apply print_keeps|intros _].
  apply keeps_bind; [apply ZipFile_keeps|intros ms].
  apply keeps_bind; [apply extractall_keeps|intros _].
  apply keeps_bind; [now apply print_keeps|intros _].
  apply find_tsv_keeps.
Qed.

Lemma remove_notices_keeps : keeps outside remove_notices.
Proof.
  apply keeps_bind; [now intros w|intros items].
  apply keeps_for_each. intros item.
  apply keeps_if; [apply unlink_keeps|apply keeps_ret].
Qed.

Lemma cleanup_keeps : keeps outside cleanup.
Proof.
  unfold cleanup.
  apply keeps_bind; [apply unlink_keeps|intros _].
  apply keeps_bind; [now apply print_keeps|intros _].
  apply remove_notices_keeps.
Qed.

Lemma acquisition_keeps : keeps outside acquisition.
Proof.
  unfold acquisition.
  apply keeps_bind; [now intros w|intros present].
  apply keeps_if; [|apply keeps_ret].
  apply keeps_bind; [now apply print_keeps|intros _].
  apply keeps_bind; [apply fetch_and_unpack_keeps|intros _].
  apply keeps_bind; [apply cleanup_keeps|intros _].
  now apply print_keeps.
Qed.

Lemma read_csv_keeps {X} (obs : world -> X) name : keeps obs (read_csv name).
Proof.
  intros w. unfold read_csv.
  destruct (lookup name (script_dir w)) as [[[text| |]|]|]; try reflexivity.
  destruct (parse_tsv text); reflexivity.
Qed.

(** The storage side leaves the script's directory alone. *)
Lemma on_data_root_keeps f : keeps script_dir (on_data_root f).
Proof. intros w. unfold on_data_root. now destruct (f (data_root w)). Qed.

Lemma connect_keeps p : keeps script_dir (connect p).
Proof.
  intros w. unfold connect.
  destruct (resolve p (Dir (data_root w))) as [[|]|];
    destruct (split_last p) as [[parent leaf]|]; try reflexivity.
  destruct (within parent _ (data_root w)); reflexivity.
Qed.

Lemma load_keeps {X} (obs : world -> X) con : keeps obs (load con).
Proof.
  intros w. unfold load.
  destruct (resolve con (Dir (data_root w))) as [[d|]|]; try reflexivity.
  destruct (database_in (os w) d); reflexivity.
Qed.

Lemma lift_keeps {X A} (obs : world -> X) (r : result A) : keeps obs (lift r).
Proof. destruct r; [apply keeps_raise|apply keeps_ret]. Qed.

Lemma commit_keeps con db : keeps script_dir (commit con db).
Proof.
  unfold commit. destruct (split_last con) as [[parent leaf]|].
  - apply on_data_root_keeps.
  - apply keeps_raise.
Qed.

Lemma execute_keeps con stmt db : keeps script_dir (execute con stmt db).
Proof.
  unfold execute. destruct (stmt db); [apply keeps_raise|].
  apply keeps_bind; [apply commit_keeps|intros _; apply keeps_ret].
Qed.

Lemma to_sql_keeps df name con mode index :
  keeps script_dir (to_sql df name con mode index).
Proof.
  unfold to_sql. apply keeps_bind; [apply lift_keeps|intros t].
  apply keeps_bind; [apply load_keeps|intros db].
  apply keeps_bind.
  - destruct (Sql.lookup_table name db), mode;
      try apply execute_keeps; try apply keeps_raise; try apply keeps_ret.
    apply keeps_bind; [apply execute_keeps|intros db']. apply execute_keeps.
  - intros db1. apply keeps_bind; [apply execute_keeps|intros _; apply keeps_ret].
Qed.

Lemma storage_keeps df : keeps script_dir (storage df).
Proof.
  unfold storage, write_database.
  apply keeps_bind; [now intros w|intros d].
  apply keeps_bind; [apply on_data_root_keeps|intros _].
  apply keeps_bind; [apply connect_keeps|intros con].
  apply keeps_bind; [apply to_sql_keeps|intros _].
  now apply print_keeps.
Qed.

(** ** Parsing *)


(** ** Writing the table *)

Section Replace.

Import Sql.
Variable name : string.

Lemma drop_table_absent (db : database) :
  lookup_table name db = None -> drop_table name db = db.
Proof.
  induction db as [|[n t] tl IH]; simpl; auto.
  destruct (String.eqb n name); simpl; [discriminate|].
  intros H. now rewrite IH.
Qed.

Lemma lookup_table_drop (db : database) :
  lookup_table name (drop_table name db) = None.
Proof.
  induction db as [|[n t] tl IH]; simpl; auto.
  destruct (String.eqb n name) eqn:E; simpl; auto. now rewrite E.
Qed.


Lemma lookup_table_app (n : string) (db db' : database) :
  lookup_table n (db ++ db') =
  match lookup_table n db with
  | Some t => Some t
  | None => lookup_table n db'
  end.
Proof.
  induction db as [|[m t] tl IH]; simpl; auto.
  now destruct (String.eqb m n).
Qed.

Lemma count_tables_drop (db : database) :
  count_tables name (drop_table name db) = 0%nat.
Proof.
  unfold count_tables, drop_table.
  induction db as [|[n t] tl IH]; simpl; auto.
  destruct (String.eqb n name) eqn:E; simpl; auto. now rewrite E.
Qed.

Lemma drop_table_idem (db : database) :
  drop_table name (drop_table name db) = drop_table name db.
Proof. apply drop_table_absent, lookup_table_drop. Qed.

Lemma drop_table_written (db : database) (t : table) :
  drop_table name (drop_table name db ++ [(name, t)]) = drop_table name db.
Proof.
  unfold drop_table at 1. rewrite filter_app. cbn [filter fst].
  rewrite String.eqb_refl. cbn [negb]. rewrite app_nil_r.
  apply drop_table_idem.
Qed.

Lemma count_tables_written (db : database) (t : table) :
  count_tables name (drop_table name db ++ [(name, t)]) = 1%nat.
Proof.
  unfold count_tables. rewrite filter_app, length_app.
  fold (count_tables name (drop_table name db)).
  rewrite count_tables_drop. simpl. now rewrite String.eqb_refl.
Qed.

Lemma lookup_table_written (db : database) (t : table) :
  lookup_table name (drop_table name db ++ [(name, t)]) = Some t.
Proof.
  rewrite lookup_table_app, lookup_table_drop. simpl.
  now rewrite String.eqb_refl.
Qed.

Lemma insert_rows_fresh (db : database) (cols : list (string * sqltype))
      (rs new : list (list cell)) :
  lookup_table name db = None ->
  insert_rows name new (db ++ [(name, mkTable cols rs)]) =
  db ++ [(name, mkTable cols (rs ++ new))].
Proof.
  induction db as [|[n t] tl IH]; simpl; intros H.
  - now rewrite String.eqb_refl.
  - destruct (String.eqb n name); [discriminate|]. now rewrite IH.
Qed.

Lemma CREATE_TABLE_inr (cols : list (string * sqltype)) (db db' : database) :
  CREATE_TABLE name cols db = inr db' -> db' = db ++ [(name, mkTable cols [])].
Proof.
  unfold CREATE_TABLE. destruct (existsb _ db); [discriminate|].
  destruct (columns_ok cols); [|discriminate].
  intros H. now inversion H.
Qed.

Lemma admits_drop (db : database) :
  admits name db = true ->
  existsb (fun e => same_name (fst e) name) (drop_table name db) = false.
Proof.
  induction db as [|[n t] tl IH]; simpl; auto.
  intros H. apply andb_prop in H as [H1 H2].
  destruct (String.eqb n name) eqn:E; simpl; auto.
  rewrite IH by auto.
  destruct (same_name n name); [discriminate|reflexivity].
Qed.

Lemma schema_names (df : DataFrame) :
  map fst (schema (frame_table false df)) = map fst (columns df).
Proof. simpl. now rewrite map_map. Qed.

Lemma table_eta (t : table) : mkTable (schema t) (rows t) = t.
Proof. now destruct t. Qed.

Lemma writable_inv (df : DataFrame) (db : database) :
  writable name df db = true ->
  table_setup false df = inr (frame_table false df) /\
  CREATE_TABLE name (schema (frame_table false df)) (drop_table name db) =
    inr (drop_table name db ++
         [(name, mkTable (schema (frame_table false df)) [])]) /\
  forallb (forallb bindable) (values df) = true.
Proof.
  unfold writable, table_setup.
  destruct (forallb valid_name _); [|discriminate].
  destruct (CREATE_TABLE name _ (drop_table name db)) as [|db'] eqn:E;
    [discriminate|].
  apply CREATE_TABLE_inr in E as ->. auto.
Qed.

(** A frame that can be stored goes into every database that has no
    table of a name like [name]. *)
Lemma storable_writable (df : DataFrame) (db : database) :
  storable df = true -> admits name db = true -> writable name df db = true.
Proof.
  unfold storable, writable, table_setup. intros H Ha.
  apply andb_prop in H as [H Hb]. apply andb_prop in H as [Hv Hc].
  rewrite schema_names, Hv. unfold CREATE_TABLE.
  rewrite (admits_drop db Ha), Hc. exact Hb.
Qed.

(** What has been written once can be written again. *)
Lemma writable_again (df : DataFrame) (db : database) (t : table) :
  writable name df db = true ->
  writable name df (drop_table name db ++ [(name, t)]) = true.
Proof. unfold writable. now rewrite drop_table_written. Qed.


End Replace.

(** The other modes do differ: inserting the rows again, as
    [if_exists='append'] does, doubles them, and [index=True] stores the row
    labels as a first column. *)
Example append_accumulates :
  exists db0 db1 db2 t,
    Sql.CREATE_TABLE "t" [("name", TEXT)] [] = inr db0 /\
    Sql.INSERT "t" (values Fixtures.sample_frame) db0 = inr db1 /\
    Sql.INSERT "t" (values Fixtures.sample_frame) db1 = inr db2 /\
    Sql.lookup_table "t" db2 = Some t /\
    length (rows t) = 2%nat.
Proof. do 4 eexists. repeat split; reflexivity. Qed.

Example index_is_a_column :
  exists t,
    Sql.table_setup true Fixtures.sample_frame = inr t /\
    map fst (schema t) = ["index"; "name"] /\
    rows t = [[IntCell 0; StrCell "Apple"]].
Proof. eexists. repeat split; reflexivity. Qed.

(** ** Skipping the acquisition *)

Lemma read_csv_Done name w df w' :
  read_csv name w = Done df w' ->
  w' = w /\ exists text,
    lookup name (script_dir w) = Some (File (Bytes text)) /\
    parse_tsv text = inr df.
Proof.
  unfold read_csv.
  destruct (lookup name (script_dir w)) as [[[text| |]|]|]; try discriminate.
  destruct (parse_tsv text) eqn:E; [discriminate|].
  intros H. inversion H; subst. eauto.
Qed.

Lemma main_Done w w' :
  main w = Done tt w' ->
  exists w1 df,
    acquisition w = Done tt w1 /\
    read_csv tsv_file w1 = Done df w1 /\
    storage df w1 = Done tt w'.
Proof.
  unfold main. intros H.
  step H w1 Hacq.
  apply bind_Done in H as (df & w2 & Hread & H).
  destruct (read_csv_Done _ _ _ _ Hread) as [-> _].
  eauto.
Qed.

Lemma acquisition_present w :
  lookup tsv_file (script_dir w) <> None -> acquisition w = Done tt w.
Proof.
  intros H. unfold acquisition, bind, exists_.
  destruct (lookup tsv_file (script_dir w)); [reflexivity|congruence].
Qed.

(** C2.  When the dataset file is already at its place, the acquisition
    step changes nothing at all: no request is sent and the file is as it
    was.  In particular the acquisition is a no-op in the state a
    successful run leaves behind. *)
Theorem C2_acquisition_skipped :
  forall w : world,
    (lookup tsv_file (script_dir w) <> None ->
     acquisition w = Done tt w /\
     trace (final (acquisition w)) = trace w /\
     lookup tsv_file (script_dir (final (acquisition w))) =
       lookup tsv_file (script_dir w)) /\
    (forall w', main w = Done tt w' -> acquisition w' = Done tt w').
Proof.
  intros w. split.
  - intros H. rewrite (acquisition_present w H). auto.
  - intros w' H.
    destruct (main_Done _ _ H) as (w1 & df & _ & Hread & Hst).
    apply read_csv_Done in Hread as [_ (text & Hl & _)].
    apply acquisition_present.
    rewrite (keeps_Done script_dir _ _ _ _ (storage_keeps df) Hst).
    congruence.
Qed.

(** ** Cleaning up *)

Lemma unlink_keeps_entry name other :
  other <> name -> keeps (entry_of other) (unlink name).
Proof.
  intros Hne w. unfold unlink, entry_of.
  destruct (lookup name (script_dir w)) as [[|]|]; simpl; auto.
  apply lookup_del_other. congruence.
Qed.

Lemma unlink_Done name w w' :
  unlink name w = Done tt w' ->
  w' = with_script_dir (del name (script_dir w)) w.
Proof.
  unfold unlink. destruct (lookup name (script_dir w)) as [[|]|];
    intros H; now inversion H.
Qed.

Lemma notice_not_zip name : notice name = true -> name <> zip_path.
Proof. intros H ->. discriminate. Qed.

Lemma remove_notice_keeps_entry item other :
  other <> item -> keeps (entry_of other) (remove_notice item).
Proof.
  intros Hne. unfold remove_notice. apply keeps_if.
  - now apply unlink_keeps_entry.
  - apply keeps_ret.
Qed.

Lemma remove_notice_spares item other :
  notice other = false -> keeps (entry_of other) (remove_notice item).
Proof.
  intros Hn. unfold remove_notice. fold (notice item).
  destruct (notice item) eqn:E.
  - apply unlink_keeps_entry. congruence.
  - apply keeps_ret.
Qed.

Lemma cleanup_keeps_entry other :
  doomed other = false -> keeps (entry_of other) cleanup.
Proof.
  unfold doomed. intros H. apply orb_false_elim in H as [Hz Hn].
  apply String.eqb_neq in Hz.
  unfold cleanup.
  apply keeps_bind; [now apply unlink_keeps_entry|intros _].
  apply keeps_bind; [now apply print_keeps|intros _].
  apply keeps_bind; [now intros w|intros items].
  apply keeps_for_each. intros item. now apply remove_notice_spares.
Qed.

Lemma filter_all {A} (f : A -> bool) (l : list A) :
  (forall a, In a l -> f a = true) -> filter f l = l.
Proof.
  induction l as [|a l IH]; simpl; auto. intros H.
  rewrite (H a) by auto. f_equal. auto.
Qed.

Lemma filter_twice {A} (f g : A -> bool) (l : list A) :
  filter f (filter g l) = filter (fun a => g a && f a) l.
Proof.
  induction l as [|a l IH]; simpl; auto.
  destruct (g a); simpl; [destruct (f a)|]; now rewrite IH.
Qed.

Lemma mem_In name names : mem name names = true <-> In name names.
Proof.
  unfold mem. rewrite existsb_exists. split.
  - intros (n & Hin & E). apply String.eqb_eq in E. now subst.
  - intros H. exists name. split; auto. apply String.eqb_refl.
Qed.

(** The loop of lines 46-48, when it runs to its end, has removed the
    entries it visited whose names mark them as notices, and only those. *)
Lemma notices_loop_Done items :
  forall w w',
    for_each items remove_notice w = Done tt w' ->
    script_dir w' =
    filter (fun e => negb (notice (fst e) && mem (fst e) items)) (script_dir w).
Proof.
  induction items as [|item rest IH]; intros w w' H.
  - inversion H; subst. symmetry. apply filter_all.
    intros e _. simpl. now rewrite andb_false_r.
  - simpl in H. step H w1 Hb.
    apply IH in H. rewrite H. clear H IH.
    unfold remove_notice in Hb.
    fold (notice item) in Hb. destruct (notice item) eqn:En.
    + apply unlink_Done in Hb. subst w1. simpl. unfold del.
      rewrite filter_twice. apply filter_ext. intros [n x]. simpl.
      destruct (String.eqb_spec n item) as [->|Hne]; simpl.
      * now rewrite En.
      * reflexivity.
    + inversion Hb; subst. apply filter_ext. intros [n x]. simpl.
      destruct (String.eqb_spec n item) as [->|Hne]; simpl; auto.
      now rewrite En.
Qed.

Lemma cleanup_Done w w' :
  cleanup w = Done tt w' ->
  script_dir w' = filter (fun e => negb (doomed (fst e))) (script_dir w).
Proof.
  unfold cleanup, remove_notices. intros H.
  step H w1 Hu.
  step H w2 Hp.
  apply bind_Done in H as (items & w3 & Hi & H).
  apply unlink_Done in Hu. inversion Hp; subst w2. inversion Hi; subst w3 items.
  apply notices_loop_Done in H. rewrite H. subst w1. simpl.
  unfold del. rewrite filter_twice. apply filter_ext_in. intros [n x] Hin.
  unfold doomed. simpl. destruct (String.eqb n zip_path) eqn:Ez; simpl; auto.
  replace (mem n _) with true; [now rewrite andb_true_r|].
  symmetry. apply mem_In. apply in_map_iff. exists (n, x). split; auto.
  apply filter_In. split; auto. simpl. now rewrite Ez.
Qed.

(** C7.  Whatever way the cleanup step ends, an entry of the script's
    directory is as it was unless it is the archive or its name begins
    with LICENSE or README, and nothing outside that directory changes.
    When the step runs to its end, the directory is what it was without
    exactly those entries: all others (nested directories with all they
    hold, unrelated files) stand where they stood. *)
Theorem C7_cleanup_removes_only_archive_and_notices :
  forall w : world,
    (forall name, doomed name = false ->
       lookup name (script_dir (final (cleanup w))) = lookup name (script_dir w)) /\
    outside (final (cleanup w)) = outside w /\
    (forall w', cleanup w = Done tt w' ->
       script_dir w' = filter (fun e => negb (doomed (fst e))) (script_dir w)).
Proof.
  intros w. split; [|split].
  - intros name H. exact (cleanup_keeps_entry name H w).
  - apply cleanup_keeps.
  - apply cleanup_Done.
Qed.

(** A directory among the notices stops the loop of lines 46-48. *)
Lemma notices_loop_Raised name sub items :
  notice name = true ->
  forall w,
    In name items ->
    lookup name (script_dir w) = Some (Dir sub) ->
    exists e w',
      for_each items remove_notice w = Raised e w' /\
      lookup name (script_dir w') = Some (Dir sub).
Proof.
  intros Hn. induction items as [|item rest IH]; intros w Hin Hl; [easy|].
  simpl. destruct (String.eqb_spec item name) as [->|Hne].
  - unfold remove_notice. fold (notice name). rewrite Hn.
    unfold bind, unlink. rewrite Hl. eauto.
  - destruct Hin as [|Hin]; [contradiction|].
    assert (Hk : keeps (entry_of name) (remove_notice item))
      by (apply remove_notice_keeps_entry; congruence).
    specialize (Hk w). unfold bind.
    destruct (remove_notice item w) as [[] w1|e w1];
      unfold entry_of in Hk; simpl in Hk.
    + apply IH; auto. congruence.
    + exists e, w1. split; auto. congruence.
Qed.

Lemma cleanup_Raised name sub w :
  notice name = true ->
  lookup name (script_dir w) = Some (Dir sub) ->
  exists e w',
    cleanup w = Raised e w' /\ lookup name (script_dir w') = Some (Dir sub).
Proof.
  intros Hn Hl. unfold cleanup, remove_notices.
  pose proof (unlink_keeps_entry zip_path name (notice_not_zip _ Hn) w) as Hk.
  unfold entry_of in Hk. unfold bind at 1.
  destruct (unlink zip_path w) as [[] w1|e w1]; simpl in Hk.
  - unfold bind, print, iterdir. simpl.
    apply notices_loop_Raised; auto; simpl; [|congruence].
    apply in_map_iff. exists (name, Dir sub). split; auto.
    apply lookup_In. congruence.
  - exists e, w1. split; auto. congruence.
Qed.

Lemma acquisition_absent w :
  lookup tsv_file (script_dir w) = None ->
  acquisition w = (until_cleanup ;; cleanup ;; print "Setup complete!") w.
Proof.
  intros H. unfold acquisition, until_cleanup, bind, exists_. rewrite H.
  simpl. reflexivity.
Qed.

(** C10.  When an entry of the script's directory whose name begins with
    LICENSE or README is a directory, the cleanup step raises (an unlink
    does not remove a directory, which is still there afterwards).  A run
    that has downloaded and unpacked into such a state ends with that very
    exception: it never reaches the parse, and the tree that holds the
    database is as it was before the run. *)
Theorem C10_notice_directory_aborts_run :
  forall (w : world) (name : string) (sub : listing),
    notice name = true ->
    lookup name (script_dir w) = Some (Dir sub) ->
    exists e w',
      cleanup w = Raised e w' /\
      lookup name (script_dir w') = Some (Dir sub) /\
      forall w0,
        lookup tsv_file (script_dir w0) = None ->
        until_cleanup w0 = Done tt w ->
        main w0 = Raised e w' /\ data_root w' = data_root w0.
Proof.
  intros w name sub Hn Hl.
  destruct (cleanup_Raised name sub w Hn Hl) as (e & w' & Hc & Hl').
  exists e, w'. repeat split; auto.
  - unfold main. rewrite (bind_of_Raised acquisition _ w0 e w'); auto.
    rewrite acquisition_absent by auto.
    rewrite (bind_of_Done until_cleanup _ w0 tt w) by auto.
    now apply bind_of_Raised.
  - assert (E1 : outside w = outside w0).
    { apply (keeps_Done outside until_cleanup w0 tt w); auto.
      apply keeps_bind; [now apply print_keeps|intros _].
      apply fetch_and_unpack_keeps. }
    assert (E2 : outside w' = outside w)
      by exact (keeps_Raised outside cleanup w e w' cleanup_keeps Hc).
    unfold outside in *. congruence.
Qed.

(** ** Creating the application-data directory *)

Lemma split_last_snoc (p : path) (leaf : string) :
  split_last (p ++ [leaf]) = Some (p, leaf).
Proof.
  induction p as [|c p IH]; simpl; auto.
  rewrite IH. destruct (p ++ [leaf]) eqn:E; auto.
  destruct p; discriminate.
Qed.

Lemma split_last_cons (c : string) (q : path) :
  q <> [] ->
  split_last (c :: q) =
  match split_last q with
  | Some (parent, leaf) => Some (c :: parent, leaf)
  | None => None
  end.
Proof. destruct q; [congruence|reflexivity]. Qed.

Lemma split_last_some (q : path) :
  q <> [] -> exists parent leaf, split_last q = Some (parent, leaf).
Proof.
  intros H. destruct (exists_last H) as (parent & leaf & ->).
  rewrite split_last_snoc. eauto.
Qed.

Lemma os_mkdir_cons (c : string) (q : path) (fs : listing) :
  q <> [] ->
  os_mkdir (c :: q) fs =
  match lookup c fs with
  | Some (Dir sub) => into c fs (os_mkdir q sub)
  | Some (File _) => inl NotADirectoryError
  | None => inl FileNotFoundError
  end.
Proof.
  intros H. unfold os_mkdir. rewrite split_last_cons by auto.
  destruct (split_last_some q H) as (parent & leaf & ->). reflexivity.
Qed.

Lemma tolerate_cons (c : string) (q : path) (e : exn) (fs sub : listing) :
  lookup c fs = Some (Dir sub) ->
  tolerate true (c :: q) e fs = into c fs (tolerate true q e sub).
Proof.
  intros H. unfold tolerate. simpl. rewrite H.
  destruct (is_dir (resolve q (Dir sub))); simpl; auto.
  now rewrite set_lookup_id.
Qed.

Lemma mkdir_plain_cons (c : string) (q : path) (fs sub : listing) :
  q <> [] ->
  lookup c fs = Some (Dir sub) ->
  mkdir_plain true (c :: q) fs = into c fs (mkdir_plain true q sub).
Proof.
  intros Hq H. unfold mkdir_plain. rewrite os_mkdir_cons, H by auto.
  destruct (os_mkdir q sub) as [e|sub']; simpl; auto.
  destruct (is_FileNotFoundError e); auto.
  now apply tolerate_cons.
Qed.

Lemma into_set (c : string) (x : node) (fs : listing) (r : result listing) :
  into c (set c x fs) r = into c fs r.
Proof. destruct r; simpl; auto. now rewrite set_set. Qed.

Lemma rev_nonempty {A} (a : A) (l : list A) : rev (a :: l) <> [].
Proof. simpl. destruct (rev l); discriminate. Qed.

(** Below an existing directory, [Path.mkdir] does what it does from
    inside that directory. *)
Lemma mkdir_up_descend (c : string) (rq : list string) :
  forall fs sub,
    lookup c fs = Some (Dir sub) ->
    mkdir_up true true (rq ++ [c]) fs = into c fs (mkdir_up true true rq sub).
Proof.
  induction rq as [|leaf rq IH]; intros fs sub H.
  - simpl. unfold os_mkdir. simpl. rewrite H. simpl.
    unfold tolerate. simpl. rewrite H. simpl. now rewrite set_lookup_id.
  - cbn [app mkdir_up].
    replace (rev (leaf :: rq ++ [c])) with (c :: rev (leaf :: rq))
      by (simpl; now rewrite rev_unit).
    rewrite os_mkdir_cons, H by apply rev_nonempty.
    destruct (os_mkdir (rev (leaf :: rq)) sub) as [e|sub'] eqn:E; simpl; auto.
    destruct (is_FileNotFoundError e).
    + rewrite (IH fs sub H).
      destruct (mkdir_up true true rq sub) as [e'|sub1]; simpl; auto.
      rewrite (mkdir_plain_cons c _ _ sub1).
      * apply into_set.
      * exact (rev_nonempty leaf rq).
      * apply lookup_set_same.
    + now apply tolerate_cons.
Qed.

(** Where the first component is missing, it is created and the rest is
    made inside the new, empty directory. *)
Lemma mkdir_up_create (c : string) (rq : list string) :
  forall fs,
    lookup c fs = None ->
    mkdir_up true true (rq ++ [c]) fs = into c fs (mkdir_up true true rq []).
Proof.
  induction rq as [|leaf rq IH]; intros fs H.
  - simpl. unfold os_mkdir. simpl. now rewrite H.
  - cbn [app mkdir_up].
    replace (rev (leaf :: rq ++ [c])) with (c :: rev (leaf :: rq))
      by (simpl; now rewrite rev_unit).
    rewrite os_mkdir_cons, H by apply rev_nonempty. cbn [is_FileNotFoundError].
    rewrite (IH fs H).
    destruct rq as [|leaf' rq].
    + change (mkdir_up true true [] []) with (@inr exn listing []).
      cbn [into].
      rewrite (mkdir_plain_cons c _ _ []);
        [|discriminate|apply lookup_set_same].
      now rewrite into_set.
    + assert (E : os_mkdir (rev (leaf :: leaf' :: rq)) [] = inl FileNotFoundError).
      { change (rev (leaf :: leaf' :: rq)) with (rev (leaf' :: rq) ++ [leaf]).
        destruct (rev (leaf' :: rq)) as [|d q] eqn:Er.
        - exfalso. exact (rev_nonempty _ _ Er).
        - rewrite <- app_comm_cons, os_mkdir_cons; [reflexivity|].
          destruct q; discriminate. }
      rewrite E. cbn [is_FileNotFoundError].
      destruct (mkdir_up true true (leaf' :: rq) []) as [e'|sub1];
        cbn [into]; auto.
      rewrite (mkdir_plain_cons c _ _ sub1);
        [apply into_set|apply rev_nonempty|apply lookup_set_same].
Qed.

Lemma Path_mkdir_descend (c : string) (q : path) (fs sub : listing) :
  lookup c fs = Some (Dir sub) ->
  Path_mkdir true true (c :: q) fs = into c fs (Path_mkdir true true q sub).
Proof. unfold Path_mkdir. simpl. apply mkdir_up_descend. Qed.

Lemma Path_mkdir_create (c : string) (q : path) (fs : listing) :
  lookup c fs = None ->
  Path_mkdir true true (c :: q) fs = into c fs (Path_mkdir true true q []).
Proof. unfold Path_mkdir. simpl. apply mkdir_up_create. Qed.

Lemma unobstructed_empty (p : path) : unobstructed p (Dir []) = true.
Proof. now destruct p. Qed.

Lemma Path_mkdir_ok (p : path) :
  forall fs,
    unobstructed p (Dir fs) = true ->
    exists fs',
      Path_mkdir true true p fs = inr fs' /\
      (forall q r, p = q ++ r -> is_dir (resolve q (Dir fs')) = true) /\
      (is_dir (resolve p (Dir fs)) = true -> fs' = fs) /\
      (forall q d, resolve q (Dir fs) = Some (File d) ->
                   resolve q (Dir fs') = Some (File d)).
Proof.
  induction p as [|c p IH]; intros fs Hu.
  - exists fs. repeat split; auto.
    intros q r E. symmetry in E. apply app_eq_nil in E as [-> _]. reflexivity.
  - simpl in Hu.
    assert (Hstep : forall sub,
              (lookup c fs = Some (Dir sub) \/ (lookup c fs = None /\ sub = [])) ->
              unobstructed p (Dir sub) = true ->
              Path_mkdir true true (c :: p) fs =
                into c fs (Path_mkdir true true p sub)).
    { intros sub [H|[H ->]] _.
      - now apply Path_mkdir_descend.
      - now apply Path_mkdir_create. }
    assert (Hcase : exists sub,
              (lookup c fs = Some (Dir sub) \/ (lookup c fs = None /\ sub = [])) /\
              unobstructed p (Dir sub) = true).
    { destruct (lookup c fs) as [[d|sub]|] eqn:E.
      - now destruct p.
      - exists sub. auto.
      - exists []. split; auto. apply unobstructed_empty. }
    destruct Hcase as (sub & Hc & Hsub).
    destruct (IH sub Hsub) as (sub' & Hm & Hpre & Hsame & Hfiles).
    rewrite (Hstep sub Hc Hsub), Hm. simpl.
    exists (set c (Dir sub') fs). split; [reflexivity|]. split; [|split].
    + intros [|c' q] r E; [reflexivity|].
      simpl in E. injection E as <- E.
      simpl. rewrite lookup_set_same. exact (Hpre q r E).
    + simpl. destruct Hc as [Hc|[Hc ->]]; rewrite Hc; [|discriminate].
      intros Hd. rewrite (Hsame Hd). now apply set_lookup_id.
    + intros [|c' q] d; [discriminate|]. simpl.
      destruct (String.eqb_spec c c') as [<-|Hne].
      * rewrite lookup_set_same.
        destruct Hc as [Hc|[Hc ->]]; rewrite Hc; [|discriminate].
        apply Hfiles.
      * now rewrite lookup_set_other.
Qed.

(** C9.  The storage step calls [mkdir(parents=True, exist_ok=True)] on the
    application-data directory of the platform.  Unless a regular file
    stands somewhere on the way, the call succeeds: afterwards the
    directory and all its parents exist as directories, the files that were
    in the tree are as they were, and if the directory existed before, the
    call changes nothing at all.  The storage step then goes on to write
    the database. *)
Theorem C9_app_data_dir_created :
  forall w : world,
    unobstructed (app_data_dir w) (Dir (data_root w)) = true ->
    exists w',
      mkdir (app_data_dir w) true true w = Done tt w' /\
      (forall q r, app_data_dir w = q ++ r ->
                   is_dir (resolve q (Dir (data_root w'))) = true) /\
      (is_dir (resolve (app_data_dir w) (Dir (data_root w))) = true -> w' = w) /\
      (forall q d, resolve q (Dir (data_root w)) = Some (File d) ->
                   resolve q (Dir (data_root w')) = Some (File d)) /\
      script_dir w' = script_dir w /\ trace w' = trace w /\
      (forall df, storage df w = write_database df (app_data_dir w) w').
Proof.
  intros w Hu.
  destruct (Path_mkdir_ok _ _ Hu) as (fs' & Hm & Hpre & Hsame & Hfiles).
  exists (with_data_root fs' w).
  assert (E : mkdir (app_data_dir w) true true w =
              Done tt (with_data_root fs' w))
    by (unfold mkdir, on_data_root; now rewrite Hm).
  split; [exact E|]. split; [exact Hpre|]. split; [|split; [exact Hfiles|]].
  - intros Hd. rewrite (Hsame Hd). now destruct w.
  - split; [reflexivity|]. split; [reflexivity|].
    intros df. unfold storage. unfold bind at 1. unfold user_data_dir at 1.
    unfold app_data_dir, user_data_dir in E |- *.
    unfold bind. now rewrite E.
Qed.

(** ** Looking for the dataset *)

(** C4.  The [break] of line 39 leaves the loop over the files of one
    directory; the walk goes on to the next directory.  With a copy of the
    dataset in folder [a] and another in folder [b], listed in that order,
    both are moved in turn: on POSIX the file that stays is the second one
    and both folders end up empty, on Windows the second move raises. *)
Theorem C4_search_goes_on_after_first_match :
  (exists w',
     find_tsv (Scenario.two_copies Linux) = Done tt w' /\
     lookup tsv_file (script_dir w') = Some (File (Bytes "B")) /\
     lookup "a" (script_dir w') = Some (Dir []) /\
     lookup "b" (script_dir w') = Some (Dir []) /\
     trace w' = [Print "Moved opennutrition_foods.tsv to opennutrition_foods.tsv";
                 Print "Moved opennutrition_foods.tsv to opennutrition_foods.tsv"]) /\
  (exists w',
     find_tsv (Scenario.two_copies Windows) = Raised FileExistsError w' /\
     lookup tsv_file (script_dir w') = Some (File (Bytes "A")) /\
     lookup "b" (script_dir w') = Some (Dir [(tsv_file, File (Bytes "B"))])).
Proof.
  split; eexists; (split; [vm_compute; reflexivity|]); repeat split.
Qed.

(** ** When there is no dataset to find *)

Lemma holds_file_Dir (name : string) (es : listing) :
  holds_file name (Dir es) = existsb (entry_holds name) es.
Proof.
  induction es as [|[n y] tl IH]; [reflexivity|].
  change (holds_file name (Dir ((n, y) :: tl)))
    with ((match y with File _ => String.eqb n name | Dir _ => false end)
          || holds_file name y || holds_file name (Dir tl)).
  rewrite IH. unfold entry_holds at 2. simpl.
  destruct y; simpl; [now rewrite orb_false_r|reflexivity].
Qed.

Lemma walk_Dir (root : path) (es : listing) :
  walk root (Dir es) =
  (root, dirnames es, filenames es) ::
  flat_map (fun e => walk (root ++ [fst e]) (snd e)) es.
Proof.
  simpl. f_equal. induction es as [|[n y] tl IH]; [reflexivity|].
  simpl. now rewrite IH.
Qed.

Lemma In_filenames (name : string) (es : listing) :
  In name (filenames es) <-> exists d, In (name, File d) es.
Proof.
  unfold filenames. rewrite in_map_iff. split.
  - intros ([n y] & <- & H). apply filter_In in H as [H Hy]. simpl in *.
    destruct y; [eauto|discriminate].
  - intros (d & H). exists (name, File d). split; auto.
    apply filter_In. auto.
Qed.

Lemma holds_file_false_In (name : string) (es : listing) :
  holds_file name (Dir es) = false ->
  forall e, In e es -> entry_holds name e = false.
Proof.
  rewrite holds_file_Dir. intros H e Hin.
  destruct (entry_holds name e) eqn:E; auto.
  rewrite <- H. symmetry. apply existsb_exists. eauto.
Qed.

(** The walk of a tree without such a file never lists its name. *)
Lemma walk_misses (name : string) (x : node) :
  holds_file name x = false ->
  forall root v, In v (walk root x) -> ~ In name (snd v).
Proof.
  induction x as [d|es IH] using node_induction; intros H root v Hv.
  - destruct Hv.
  - rewrite walk_Dir in Hv. destruct Hv as [<-|Hv].
    + simpl. intros Hin. apply In_filenames in Hin as (d & Hin).
      pose proof (holds_file_false_In _ _ H _ Hin) as E.
      unfold entry_holds in E. simpl in E. now rewrite String.eqb_refl in E.
    + apply in_flat_map in Hv as ([n y] & Hin & Hv). simpl in Hv.
      rewrite Forall_forall in IH. apply (IH _ Hin) in Hv; auto.
      pose proof (holds_file_false_In _ _ H _ Hin) as E.
      unfold entry_holds in E. simpl in *. now destruct y.
Qed.

Lemma scan_files_miss (root : path) (files : list string) (w : world) :
  ~ In tsv_file files -> scan_files root files w = Done tt w.
Proof.
  induction files as [|file rest IH]; intros H; [reflexivity|].
  simpl. destruct (String.eqb_spec file "opennutrition_foods.tsv") as [->|].
  - exfalso. apply H. now left.
  - apply IH. intros Hin. apply H. now right.
Qed.

Lemma for_each_idle {A} (xs : list A) (body : A -> M unit) (w : world) :
  (forall x, In x xs -> body x w = Done tt w) -> for_each xs body w = Done tt w.
Proof.
  induction xs as [|x tl IH]; intros H; [reflexivity|].
  simpl. unfold bind. rewrite (H x) by now left.
  apply IH. intros y Hy. apply H. now right.
Qed.

Lemma find_tsv_miss (w : world) :
  holds_file tsv_file (Dir (script_dir w)) = false -> find_tsv w = Done tt w.
Proof.
  intros H. unfold find_tsv, bind, os_walk.
  apply for_each_idle. intros v Hv. apply scan_files_miss.
  exact (walk_misses _ _ H _ _ Hv).
Qed.

Lemma entry_holds_set (name n : string) (x : node) (es : listing) :
  holds_file name (Dir es) = false ->
  entry_holds name (n, x) = false ->
  holds_file name (Dir (set n x es)) = false.
Proof.
  rewrite !holds_file_Dir. intros H Hx.
  induction es as [|[m y] tl IH]; simpl in *.
  - now rewrite Hx.
  - apply orb_false_elim in H as [Hy Htl].
    destruct (String.eqb m n) eqn:E; simpl.
    + apply String.eqb_eq in E. subst m. now rewrite Hx, Htl.
    + now rewrite Hy, IH.
Qed.

Lemma holds_file_filter (name : string) (f : string * node -> bool) (es : listing) :
  holds_file name (Dir es) = false ->
  holds_file name (Dir (filter f es)) = false.
Proof.
  rewrite !holds_file_Dir. induction es as [|e tl IH]; simpl; auto.
  intros H. apply orb_false_elim in H as [He Htl].
  destruct (f e); simpl; auto. now rewrite He, IH.
Qed.

Lemma holds_file_lookup (name : string) (es : listing) (d : payload) :
  lookup name es = Some (File d) -> holds_file name (Dir es) = true.
Proof.
  intros H. apply lookup_In in H. rewrite holds_file_Dir.
  apply existsb_exists. exists (name, File d). split; auto.
  unfold entry_holds. simpl. apply String.eqb_refl.
Qed.

Lemma holds_file_sub (name c : string) (es sub : listing) :
  holds_file name (Dir es) = false ->
  lookup c es = Some (Dir sub) ->
  holds_file name (Dir sub) = false.
Proof.
  intros H Hl. apply lookup_In in Hl.
  exact (holds_file_false_In _ _ H _ Hl).
Qed.

Lemma named_file_cons (name c : string) (q : path) (m : option payload) :
  q <> [] -> named_file name (c :: q, m) = named_file name (q, m).
Proof.
  intros H. unfold named_file. simpl fst. rewrite split_last_cons by auto.
  destruct (split_last_some q H) as (parent & leaf & ->). reflexivity.
Qed.

Lemma extract_cons (c : string) (q : path) (m : option payload) (es : listing) :
  q <> [] ->
  extract (c :: q) m es =
  match lookup c es with
  | Some (File _) => inl NotADirectoryError
  | Some (Dir sub) => into c es (extract q m sub)
  | None => into c es (extract q m [])
  end.
Proof. destruct q; [congruence|reflexivity]. Qed.

Lemma into_inr (c : string) (es es' : listing) (r : result listing) :
  into c es r = inr es' -> exists sub', r = inr sub' /\ es' = set c (Dir sub') es.
Proof. destruct r as [|sub']; [discriminate|]. intros H. inversion H. eauto. Qed.

(** Unpacking a member that is not such a file does not bring one in. *)
Lemma extract_brings_none (name : string) (m : option payload) (p : path) :
  named_file name (p, m) = false ->
  forall es es',
    holds_file name (Dir es) = false ->
    extract p m es = inr es' ->
    holds_file name (Dir es') = false.
Proof.
  induction p as [|c rest IH]; intros Hm es es' H E.
  - simpl in E. destruct m; inversion E. now subst.
  - destruct rest as [|r rest].
    + simpl in E. unfold named_file in Hm. simpl in Hm.
      destruct m as [d|], (lookup c es) as [[|]|] eqn:El;
        inversion E; subst; auto;
        apply entry_holds_set; auto.
    + assert (Hr : named_file name (r :: rest, m) = false).
      { rewrite <- Hm. symmetry. apply named_file_cons. discriminate. }
      rewrite extract_cons in E by discriminate.
      destruct (lookup c es) as [[|sub]|] eqn:El; [discriminate| |];
        apply into_inr in E as (sub' & Es & ->);
        apply entry_holds_set; auto; unfold entry_holds; simpl.
      * apply (IH Hr sub sub'); auto. eapply holds_file_sub; eauto.
      * apply (IH Hr [] sub'); auto.
Qed.

(** A property that every step of a loop hands on holds when the loop has
    run to its end. *)
Lemma for_each_invariant {A} (P : world -> Prop) (body : A -> M unit) :
  forall xs w w',
    (forall x w1 w2, In x xs -> P w1 -> body x w1 = Done tt w2 -> P w2) ->
    P w ->
    for_each xs body w = Done tt w' ->
    P w'.
Proof.
  induction xs as [|x tl IH]; intros w w' Hstep HP H.
  - inversion H. now subst.
  - simpl in H. step H w1 Hb.
    apply (IH w1 w'); auto.
    + intros y wa wb Hy. apply Hstep. now right.
    + apply (Hstep x w w1); auto. now left.
Qed.

Lemma on_script_dir_Done f w w' :
  on_script_dir f w = Done tt w' ->
  exists es, f (script_dir w) = inr es /\ w' = with_script_dir es w.
Proof.
  unfold on_script_dir. destruct (f (script_dir w)) as [|es]; [discriminate|].
  intros H. inversion H. eauto.
Qed.

Lemma extractall_brings_none (name : string) (ms : list member) w w' :
  archive_has_file name ms = false ->
  holds_file name (Dir (script_dir w)) = false ->
  extractall ms w = Done tt w' ->
  holds_file name (Dir (script_dir w')) = false.
Proof.
  intros Hms H E.
  apply (for_each_invariant
           (fun w => holds_file name (Dir (script_dir w)) = false) _ _ _ _)
    in E; auto.
  intros [p m] w1 w2 Hin H1 E1.
  apply on_script_dir_Done in E1 as (es & E1 & ->). simpl in *.
  apply (extract_brings_none name m p) with (es := script_dir w1); auto.
  destruct (named_file name (p, m)) eqn:En; auto.
  rewrite <- Hms. symmetry. apply existsb_exists. eauto.
Qed.

(** The steps of a download that runs to its end. *)
Lemma fetch_and_unpack_Done w w' body :
  remote w zip_url = Served body ->
  fetch_and_unpack w = Done tt w' ->
  exists ms wa wb,
    body = Zip ms /\
    script_dir wa = set zip_path (File body) (script_dir w) /\
    extractall ms wa = Done tt wb /\
    find_tsv (log (Print "Extracted files") wb) = Done tt w'.
Proof.
  intros Hr H. unfold fetch_and_unpack in H.
  step H w1 Hu.
  step H w2 Hp.
  apply bind_Done in H as (ms & w3 & Hz & H).
  step H w4 He.
  apply bind_Done in H as ([] & w5 & Hp' & H).
  unfold urlretrieve in Hu. rewrite Hr in Hu.
  apply on_script_dir_Done in Hu as (es & Hw & ->).
  assert (Hes : es = set zip_path (File body) (script_dir w)).
  { unfold write_file in Hw. simpl in Hw.
    destruct (lookup zip_path (script_dir w)) as [[|]|]; congruence. }
  assert (H2 : script_dir w2 = es) by (inversion Hp; reflexivity).
  assert (H3 : w3 = w2 /\ body = Zip ms).
  { unfold ZipFile in Hz. rewrite H2, Hes, lookup_set_same in Hz.
    destruct body; inversion Hz; auto. }
  destruct H3 as [-> ->].
  inversion Hp'; subst w5.
  exists ms, w2, w4. rewrite H2, Hes. auto.
Qed.

Lemma entry_holds_zip body : entry_holds tsv_file (zip_path, File body) = false.
Proof. reflexivity. Qed.

Lemma acquisition_brings_none w w' ms :
  lookup tsv_file (script_dir w) = None ->
  remote w zip_url = Served (Zip ms) ->
  archive_has_file tsv_file ms = false ->
  holds_file tsv_file (Dir (script_dir w)) = false ->
  acquisition w = Done tt w' ->
  holds_file tsv_file (Dir (script_dir w')) = false.
Proof.
  intros Habs Hr Hms Hno H. rewrite acquisition_absent in H by auto.
  step H w1 Hf.
  step H w2 Hc.
  inversion H; subst w'. simpl. clear H.
  apply cleanup_Done in Hc. rewrite Hc. apply holds_file_filter.
  unfold until_cleanup in Hf.
  step Hf w0 Hp. inversion Hp; subst w0.
  apply (fetch_and_unpack_Done _ _ (Zip ms)) in Hf; auto.
  destruct Hf as (ms' & wa & wb & E & Hwa & Hex & Hfind).
  inversion E; subst ms'.
  assert (Hb : holds_file tsv_file (Dir (script_dir wb)) = false).
  { apply (extractall_brings_none _ ms wa wb); auto.
    rewrite Hwa. apply entry_holds_set; auto. }
  rewrite find_tsv_miss in Hfind by exact Hb.
  inversion Hfind. now subst.
Qed.

(** C5 as stated fails: with an older copy of the dataset in a folder of
    the script's directory, an archive without the dataset still leads to
    a run that ends well and writes the table. *)
Lemma C5_stale_copy_is_picked_up :
  ~ (forall (w : world) (ms : list member),
       lookup tsv_file (script_dir w) = None ->
       remote w zip_url = Served (Zip ms) ->
       archive_has_file tsv_file ms = false ->
       exists e w', main w = Raised e w' /\ data_root w' = data_root w).
Proof.
  intros H.
  destruct (H Scenario.stale Scenario.stale_archive) as (e & w' & E & _);
    try reflexivity.
  vm_compute in E. discriminate.
Qed.

(** C5, amended.  When the archive has no file of the dataset's name and
    no file of that name lies anywhere below the script's directory
    either, the run ends with an exception and the tree that holds the
    database is as it was: nothing is written. *)
Theorem C5_missing_dataset_aborts_run :
  forall (w : world) (ms : list member),
    lookup tsv_file (script_dir w) = None ->
    remote w zip_url = Served (Zip ms) ->
    archive_has_file tsv_file ms = false ->
    holds_file tsv_file (Dir (script_dir w)) = false ->
    exists e w', main w = Raised e w' /\ data_root w' = data_root w.
Proof.
  intros w ms Habs Hr Hms Hno. unfold main.
  pose proof (acquisition_keeps w) as Hk.
  destruct (acquisition w) as [[] w1|e w1] eqn:Ea; simpl in Hk.
  - pose proof (acquisition_brings_none _ _ _ Habs Hr Hms Hno Ea) as H1.
    assert (Hread : exists e, read_csv tsv_file w1 = Raised e w1).
    { unfold read_csv.
      destruct (lookup tsv_file (script_dir w1)) as [[d|]|] eqn:El; eauto.
      apply holds_file_lookup in El. congruence. }
    destruct Hread as (e & Hread). exists e, w1. split.
    + rewrite (bind_of_Done acquisition _ w tt w1) by auto.
      now apply bind_of_Raised.
    + unfold outside in Hk. congruence.
  - exists e, w1. split.
    + now apply bind_of_Raised.
    + unfold outside in Hk. congruence.
Qed.

(** ** Well-formed trees *)

Lemma wf_Dir (es : listing) :
  wf (Dir es) = unique (map fst es) && forallb (fun e => wf (snd e)) es.
Proof.
  simpl. f_equal. induction es as [|[n y] tl IH]; [reflexivity|].
  simpl. now rewrite IH.
Qed.

Lemma unique_lookup (es : listing) (n : string) (y : node) :
  unique (map fst es) = true -> In (n, y) es -> lookup n es = Some y.
Proof.
  induction es as [|[m z] tl IH]; simpl; [easy|].
  intros H Hin. apply andb_prop in H as [Hm Hu].
  destruct Hin as [E|Hin].
  - inversion E; subst. now rewrite String.eqb_refl.
  - destruct (String.eqb_spec m n) as [->|]; auto.
    apply negb_true_iff in Hm. exfalso.
    assert (mem n (map fst tl) = true); [|congruence].
    apply mem_In. apply in_map_iff. exists (n, y). auto.
Qed.

Lemma mem_names_set (m n : string) (x : node) (es : listing) :
  m <> n -> mem m (map fst (set n x es)) = mem m (map fst es).
Proof.
  intros Hne. induction es as [|[k y] tl IH]; simpl.
  - destruct (String.eqb_spec m n); [contradiction|reflexivity].
  - destruct (String.eqb k n); simpl; auto. now rewrite IH.
Qed.

Lemma unique_set (n : string) (x : node) (es : listing) :
  unique (map fst es) = true -> unique (map fst (set n x es)) = true.
Proof.
  induction es as [|[m y] tl IH]; simpl; auto.
  intros H. apply andb_prop in H as [Hm Hu].
  destruct (String.eqb_spec m n) as [->|Hne]; simpl.
  - now rewrite Hm, Hu.
  - rewrite mem_names_set by auto. now rewrite Hm, IH.
Qed.

Lemma wf_set (n : string) (x : node) (es : listing) :
  wf (Dir es) = true -> wf x = true -> wf (Dir (set n x es)) = true.
Proof.
  rewrite !wf_Dir. intros H Hx. apply andb_prop in H as [Hu Hall].
  rewrite unique_set by auto. simpl.
  clear Hu. induction es as [|[m y] tl IH]; simpl in *.
  - now rewrite Hx.
  - apply andb_prop in Hall as [Hy Htl].
    destruct (String.eqb m n); simpl.
    + now rewrite Hx, Htl.
    + now rewrite Hy, IH.
Qed.

Lemma wf_In (es : listing) (e : string * node) :
  wf (Dir es) = true -> In e es -> wf (snd e) = true.
Proof.
  rewrite wf_Dir. intros H Hin. apply andb_prop in H as [_ Hall].
  rewrite forallb_forall in Hall. auto.
Qed.

Lemma wf_extract (m : option payload) (p : path) :
  forall es es',
    wf (Dir es) = true -> extract p m es = inr es' -> wf (Dir es') = true.
Proof.
  induction p as [|c rest IH]; intros es es' H E.
  - simpl in E. destruct m; inversion E. now subst.
  - destruct rest as [|r rest].
    + simpl in E.
      destruct m as [d|], (lookup c es) as [[|]|] eqn:El;
        inversion E; subst; auto; now apply wf_set.
    + rewrite extract_cons in E by discriminate.
      destruct (lookup c es) as [[|sub]|] eqn:El; [discriminate| |];
        apply into_inr in E as (sub' & Es & ->); apply wf_set; auto.
      * apply (IH sub); auto.
        apply lookup_In in El. exact (wf_In _ _ H El).
      * now apply (IH []).
Qed.

(** In a well-formed tree, what the walk lists as a file is a file at that
    path. *)
Lemma walk_lists_files (x : node) :
  wf x = true ->
  forall root v,
    In v (walk root x) ->
    exists rel,
      fst (fst v) = root ++ rel /\
      forall n, In n (snd v) -> exists d, resolve (rel ++ [n]) x = Some (File d).
Proof.
  induction x as [d|es IH] using node_induction; intros Hwf root v Hv.
  - destruct Hv.
  - rewrite walk_Dir in Hv. destruct Hv as [<-|Hv].
    + exists []. split; [now rewrite app_nil_r|].
      simpl. intros n Hn. apply In_filenames in Hn as (d & Hin).
      rewrite wf_Dir in Hwf. apply andb_prop in Hwf as [Hu _].
      rewrite (unique_lookup _ _ _ Hu Hin). eauto.
    + apply in_flat_map in Hv as ([m y] & Hin & Hv). simpl in Hv.
      rewrite Forall_forall in IH.
      destruct (IH _ Hin (wf_In _ _ Hwf Hin) _ _ Hv) as (rel & E & Hfiles).
      exists (m :: rel). split; [now rewrite E, <- app_assoc|].
      intros n Hn. simpl.
      rewrite wf_Dir in Hwf. apply andb_prop in Hwf as [Hu _].
      rewrite (unique_lookup _ _ _ Hu Hin). auto.
Qed.

(** A file is listed when the walk visits the directory it is in. *)
Lemma walk_visits (rel : path) (n : string) (d : payload) :
  forall x root,
    resolve (rel ++ [n]) x = Some (File d) ->
    exists v, In v (walk root x) /\ fst (fst v) = root ++ rel /\ In n (snd v).
Proof.
  induction rel as [|c rel IH]; intros [d0|es] root H; try discriminate.
  - simpl in H. destruct (lookup n es) as [y|] eqn:El; [|discriminate].
    inversion H; subst y.
    exists (root, dirnames es, filenames es). rewrite walk_Dir.
    split; [now left|]. split; [now rewrite app_nil_r|].
    simpl. apply In_filenames. exists d. now apply lookup_In.
  - simpl in H. destruct (lookup c es) as [y|] eqn:El; [|discriminate].
    destruct (IH y (root ++ [c]) H) as (v & Hv & E & Hn).
    exists v. rewrite walk_Dir. split; [|split; auto].
    + right. apply in_flat_map. exists (c, y). split; auto.
      now apply lookup_In.
    + now rewrite E, <- app_assoc.
Qed.

(** ** Moving the dataset to the top *)

Lemma rename_Done src dst w w' :
  rename src dst w = Done tt w' ->
  exists x,
    resolve src (Dir (script_dir w)) = Some x /\
    lookup dst (script_dir w') = Some x /\
    (is_file (lookup dst (script_dir w)) = true -> exists d, x = File d).
Proof.
  unfold rename.
  destruct (split_last src) as [[parent leaf]|]; [|discriminate].
  destruct (resolve src (Dir (script_dir w))) as [x|]; [|discriminate].
  intros H. exists x. split; auto.
  assert (Hmove :
    on_script_dir (fun es =>
      match within parent (fun d => inr (del leaf d)) es with
      | inr es' => inr (set dst x es')
      | inl e => inl e
      end) w = Done tt w' -> lookup dst (script_dir w') = Some x).
  { intros Hm. apply on_script_dir_Done in Hm as (es & Hm & ->).
    destruct (within parent _ (script_dir w)); [discriminate|].
    inversion Hm. simpl. apply lookup_set_same. }
  destruct (lookup dst (script_dir w)) as [[d|[|]]|], x, (os w);
    try discriminate; simpl; split; auto; try discriminate; eauto.
Qed.

Lemma path_eqb_top (root : path) (name : string) :
  path_eqb (root ++ [name]) [name] = true <-> root = [].
Proof.
  unfold path_eqb. destruct (list_eq_dec _ _ _) as [E|E]; split; auto;
    try discriminate.
  - intros _. destruct root as [|c [|c' root]]; auto; discriminate.
  - intros ->. now contradiction E.
Qed.

(** What one round of the inner loop does when it ends well: nothing, or
    one move of the file of this directory to the top. *)
Lemma scan_files_Done (root : path) (files : list string) w w' :
  scan_files root files w = Done tt w' ->
  (w' = w /\ (~ In tsv_file files \/ root = [])) \/
  (In tsv_file files /\ root <> [] /\
   exists w1, rename (root ++ [tsv_file]) tsv_file w = Done tt w1 /\
              script_dir w' = script_dir w1).
Proof.
  induction files as [|file rest IH]; intros H.
  - inversion H. left. split; auto.
  - simpl in H.
    destruct (String.eqb_spec file "opennutrition_foods.tsv") as [->|Hne].
    + fold tsv_file in H.
      destruct (path_eqb (root ++ [tsv_file]) [tsv_file]) eqn:Ep; simpl in H.
      * inversion H. left. split; auto. right.
        exact (proj1 (path_eqb_top root tsv_file) Ep).
      * right. split; [now left|]. split.
        { intros ->. simpl in Ep. unfold path_eqb in Ep.
          destruct (list_eq_dec _ _ _); [discriminate|contradiction]. }
        apply bind_Done in H as ([] & w1 & Hr & Hp).
        exists w1. split; auto. inversion Hp. reflexivity.
    + destruct (IH H) as [[-> Hc]|(Hin & Hr & Hex)].
      * left. split; auto. destruct Hc as [Hc|Hc]; auto.
        left. intros [E|Hin]; [now apply Hne|auto].
      * right. split; auto. now right.
Qed.

Lemma scan_files_keeps_dataset root files w w' :
  dataset_in_place w ->
  scan_files root files w = Done tt w' ->
  dataset_in_place w'.
Proof.
  unfold dataset_in_place. intros HP H.
  apply scan_files_Done in H as [[-> _]|(_ & _ & w1 & Hr & E)]; auto.
  rewrite E. apply rename_Done in Hr as (x & _ & Hl & Hx).
  destruct (Hx HP) as (d & ->). now rewrite Hl.
Qed.

Section Search.

(** The directory as it is when the walk starts. *)
Variable es0 : listing.

Lemma scan_files_hit root files d w w' :
  In tsv_file files ->
  resolve (root ++ [tsv_file]) (Dir es0) = Some (File d) ->
  untouched_or_found es0 w ->
  scan_files root files w = Done tt w' ->
  dataset_in_place w'.
Proof.
  intros Hin Hres [HP|E0] H.
  - eapply scan_files_keeps_dataset; eauto.
  - unfold dataset_in_place.
    apply scan_files_Done in H as [[-> [Hc| ->]]|(_ & _ & w1 & Hr & E)].
    + contradiction.
    + rewrite E0. simpl in Hres.
      destruct (lookup tsv_file es0) as [y|]; [|discriminate].
      now inversion Hres.
    + rewrite E. apply rename_Done in Hr as (x & Hx & Hl & _).
      rewrite E0, Hres in Hx. inversion Hx; subst x. now rewrite Hl.
Qed.

Lemma scan_files_step root files w w' :
  (forall n, In n files ->
     exists d, resolve (root ++ [n]) (Dir es0) = Some (File d)) ->
  untouched_or_found es0 w ->
  scan_files root files w = Done tt w' ->
  untouched_or_found es0 w'.
Proof.
  intros Hfiles HK H.
  pose proof H as H'.
  apply scan_files_Done in H' as [[-> _]|(Hin & _ & _)]; auto.
  left. destruct (Hfiles _ Hin) as (d & Hres).
  eapply scan_files_hit; eauto.
Qed.

End Search.

Lemma for_each_app {A} (xs ys : list A) (body : A -> M unit) w w' :
  for_each (xs ++ ys) body w = Done tt w' ->
  exists w1, for_each xs body w = Done tt w1 /\ for_each ys body w1 = Done tt w'.
Proof.
  revert w. induction xs as [|x tl IH]; intros w H.
  - exists w. auto.
  - simpl in H. step H w1 Hb.
    destruct (IH _ H) as (w2 & H1 & H2). exists w2. split; auto.
    simpl. now rewrite (bind_of_Done _ _ _ _ _ Hb).
Qed.

(** From a well-formed tree that holds the dataset somewhere, a search
    that ends well leaves the dataset at its place. *)
Lemma find_tsv_brings (w w' : world) (rel : path) (d : payload) :
  wf (Dir (script_dir w)) = true ->
  resolve (rel ++ [tsv_file]) (Dir (script_dir w)) = Some (File d) ->
  find_tsv w = Done tt w' ->
  dataset_in_place w'.
Proof.
  intros Hwf Hres H. unfold find_tsv, bind, os_walk in H.
  set (es0 := script_dir w) in *.
  destruct (walk_visits rel tsv_file d _ [] Hres) as (v & Hv & Hroot & Hin).
  simpl in Hroot.
  assert (Hlisted : forall u, In u (walk [] (Dir es0)) ->
            forall n, In n (snd u) ->
            exists d', resolve (fst (fst u) ++ [n]) (Dir es0) = Some (File d')).
  { intros u Hu n Hn.
    destruct (walk_lists_files _ Hwf _ _ Hu) as (r & E & Hf).
    rewrite E. simpl. auto. }
  destruct (in_split _ _ Hv) as (before & after & Esplit).
  rewrite Esplit in H, Hlisted.
  apply for_each_app in H as (w1 & H1 & H2).
  simpl in H2. step H2 w2 Hhit.
  assert (K1 : untouched_or_found es0 w1).
  { apply (for_each_invariant (untouched_or_found es0) _ _ _ _) in H1; auto.
    - intros u wa wb Hu HK. apply scan_files_step; auto.
      apply Hlisted. apply in_or_app. now left.
    - now right. }
  assert (P2 : dataset_in_place w2).
  { apply (scan_files_hit es0 _ _ d _ _ Hin) in Hhit; auto.
    now rewrite Hroot. }
  apply (for_each_invariant dataset_in_place _ _ _ _) in H2; auto.
  intros u wa wb _. apply scan_files_keeps_dataset.
Qed.

(** ** Unpacking the dataset *)

Lemma split_last_inv (p parent : path) (leaf : string) :
  split_last p = Some (parent, leaf) -> p = parent ++ [leaf].
Proof.
  revert parent. induction p as [|c rest IH]; intros parent H; [discriminate|].
  destruct rest as [|r rest].
  - inversion H. reflexivity.
  - rewrite split_last_cons in H by discriminate.
    destruct (split_last (r :: rest)) as [[q l]|]; [|discriminate].
    inversion H; subst. simpl. f_equal. now apply IH.
Qed.

(** A member that is a file is on disk once it is unpacked. *)
Lemma extract_writes (d : payload) (p : path) :
  forall es es',
    extract p (Some d) es = inr es' -> resolve p (Dir es') = Some (File d).
Proof.
  induction p as [|c rest IH]; intros es es' E; [discriminate|].
  destruct rest as [|r rest].
  - simpl in E. simpl.
    destruct (lookup c es) as [[|]|]; inversion E; now rewrite lookup_set_same.
  - rewrite extract_cons in E by discriminate.
    destruct (lookup c es) as [[|sub]|]; [discriminate| |];
      apply into_inr in E as (sub' & Es & ->);
      cbn [resolve]; rewrite lookup_set_same; eapply IH; eauto.
Qed.

Lemma resolve_cons (c : string) (q : path) (es : listing) :
  resolve (c :: q) (Dir es) =
  match lookup c es with
  | Some y => resolve q y
  | None => None
  end.
Proof. reflexivity. Qed.

Lemma resolve_File (q : path) (d d' : payload) :
  resolve q (File d) = Some (File d') -> q = [].
Proof. destruct q; [reflexivity|discriminate]. Qed.

(** Unpacking further members leaves a file a file. *)
Lemma extract_keeps_file (m : option payload) (q : path) :
  forall (p : path) (es es' : listing) (d : payload),
    extract q m es = inr es' ->
    resolve p (Dir es) = Some (File d) ->
    exists d', resolve p (Dir es') = Some (File d').
Proof.
  induction q as [|c rest IH]; intros p es es' d E H.
  - simpl in E. destruct m; inversion E. subst. eauto.
  - destruct p as [|c' p]; [discriminate|].
    rewrite resolve_cons in H.
    destruct (lookup c' es) as [y|] eqn:El'; [|discriminate].
    assert (Hother : forall x, c <> c' ->
              exists d', resolve (c' :: p) (Dir (set c x es)) = Some (File d')).
    { intros x Hne. rewrite resolve_cons, lookup_set_other, El' by auto. eauto. }
    destruct rest as [|r rest].
    + simpl in E.
      destruct (String.eqb_spec c c') as [<-|Hne].
      * rewrite El' in E.
        destruct m as [d0|], y as [dy|sub]; inversion E; subst.
        -- apply resolve_File in H. subst p. exists d0.
           rewrite resolve_cons. now rewrite lookup_set_same.
        -- rewrite resolve_cons, El'. eauto.
      * destruct m as [d0|], (lookup c es) as [[|]|];
          inversion E; subst; auto.
        rewrite resolve_cons, El'. eauto.
    + rewrite extract_cons in E by discriminate.
      destruct (String.eqb_spec c c') as [<-|Hne].
      * rewrite El' in E. destruct y as [|sub]; [discriminate|].
        apply into_inr in E as (sub' & Es & ->).
        destruct (IH p sub sub' d Es H) as (d' & Hd').
        exists d'. rewrite resolve_cons. now rewrite lookup_set_same.
      * destruct (lookup c es) as [[|sub]|]; [discriminate| |];
          apply into_inr in E as (sub' & Es & ->); auto.
Qed.

Lemma archive_member (name : string) (ms : list member) :
  archive_has_file name ms = true ->
  exists parent d, In (parent ++ [name], Some d) ms.
Proof.
  unfold archive_has_file. rewrite existsb_exists.
  intros ([p m] & Hin & H). unfold named_file in H. simpl in H.
  destruct m as [d|]; [|discriminate].
  destruct (split_last p) as [[parent leaf]|] eqn:E; [|discriminate].
  apply String.eqb_eq in H. subst leaf.
  apply split_last_inv in E. subst p. eauto.
Qed.

Lemma extractall_wf (ms : list member) w w' :
  wf (Dir (script_dir w)) = true ->
  extractall ms w = Done tt w' ->
  wf (Dir (script_dir w')) = true.
Proof.
  intros H E.
  apply (for_each_invariant (fun w => wf (Dir (script_dir w)) = true) _ _ _ _)
    in E; auto.
  intros [p m] w1 w2 _ H1 E1.
  apply on_script_dir_Done in E1 as (es & E1 & ->). simpl in *.
  eapply wf_extract; eauto.
Qed.

Lemma extractall_writes (ms : list member) (p : path) (d : payload) w w' :
  In (p, Some d) ms ->
  extractall ms w = Done tt w' ->
  exists d', resolve p (Dir (script_dir w')) = Some (File d').
Proof.
  intros Hin E. destruct (in_split _ _ Hin) as (before & after & ->).
  unfold extractall in E. apply for_each_app in E as (w1 & _ & E).
  simpl in E. step E w2 E1.
  apply on_script_dir_Done in E1 as (es & E1 & ->). simpl in E1.
  apply extract_writes in E1.
  apply (for_each_invariant
           (fun w => exists d', resolve p (Dir (script_dir w)) = Some (File d'))
           _ _ _ _) in E; auto.
  - intros [q m] wa wb _ (d' & Hd') Eb.
    apply on_script_dir_Done in Eb as (es' & Eb & ->). simpl in *.
    eapply extract_keeps_file; eauto.
  - simpl. eauto.
Qed.

Lemma lookup_filter_names (g : string -> bool) (name : string) (es : listing) :
  lookup name (filter (fun e => g (fst e)) es) =
  if g name then lookup name es else None.
Proof.
  induction es as [|[n y] tl IH]; simpl.
  - now destruct (g name).
  - destruct (g n) eqn:Eg; simpl;
      destruct (String.eqb_spec n name) as [->|]; auto.
    + now rewrite Eg.
    + rewrite IH, Eg. reflexivity.
Qed.

Lemma cleanup_Done_lookup w w' name :
  cleanup w = Done tt w' ->
  lookup name (script_dir w') =
  if doomed name then None else lookup name (script_dir w).
Proof.
  intros H. apply cleanup_Done in H. rewrite H.
  rewrite (lookup_filter_names (fun n => negb (doomed n))).
  now destruct (doomed name).
Qed.

(** The steps of an acquisition that downloads and runs to its end. *)
Lemma acquisition_Done w w' body :
  lookup tsv_file (script_dir w) = None ->
  remote w zip_url = Served body ->
  acquisition w = Done tt w' ->
  exists ms wa wb wc wd,
    body = Zip ms /\
    script_dir wa = set zip_path (File body) (script_dir w) /\
    extractall ms wa = Done tt wb /\
    find_tsv (log (Print "Extracted files") wb) = Done tt wc /\
    cleanup wc = Done tt wd /\
    script_dir w' = script_dir wd.
Proof.
  intros Habs Hr H. rewrite acquisition_absent in H by auto.
  step H w1 Hf.
  step H w2 Hc.
  unfold until_cleanup in Hf.
  step Hf w0 Hp.
  assert (E0 : script_dir w0 = script_dir w /\ remote w0 = remote w)
    by (inversion Hp; auto).
  destruct E0 as [E0 E0'].
  apply (fetch_and_unpack_Done _ _ body) in Hf; [|now rewrite E0'].
  destruct Hf as (ms & wa & wb & E & Hwa & Hex & Hfind).
  exists ms, wa, wb, w1, w2. rewrite <- E0. repeat split; auto.
  inversion H. reflexivity.
Qed.

(** C6.  Let the acquisition run, from a well-formed directory without the
    dataset, on an archive that lists a regular file of the dataset's
    name.  When it ends well, the dataset is a regular file at its place,
    the archive is gone, and no entry of the script's directory has a name
    that begins with LICENSE or README. *)
Theorem C6_acquisition_result :
  forall (w w' : world) (ms : list member),
    wf (Dir (script_dir w)) = true ->
    lookup tsv_file (script_dir w) = None ->
    remote w zip_url = Served (Zip ms) ->
    archive_has_file tsv_file ms = true ->
    acquisition w = Done tt w' ->
    is_file (lookup tsv_file (script_dir w')) = true /\
    lookup zip_path (script_dir w') = None /\
    (forall name, notice name = true -> lookup name (script_dir w') = None).
Proof.
  intros w w' ms Hwf Habs Hr Hms H.
  destruct (acquisition_Done _ _ _ Habs Hr H)
    as (ms' & wa & wb & wc & wd & E & Hwa & Hex & Hfind & Hclean & Ew').
  inversion E; subst ms'. clear E. rewrite Ew'.
  rewrite !(cleanup_Done_lookup _ _ _ Hclean). split; [|split].
  - change (doomed tsv_file) with false. cbv iota.
    destruct (archive_member _ _ Hms) as (parent & d & Hin).
    destruct (extractall_writes _ _ _ _ _ Hin Hex) as (d' & Hd').
    apply (find_tsv_brings _ _ parent d' ) in Hfind; auto.
    simpl. apply (extractall_wf ms wa); auto.
    rewrite Hwa. now apply wf_set.
  - reflexivity.
  - intros name Hn. rewrite (cleanup_Done_lookup _ _ _ Hclean).
    unfold doomed. rewrite Hn. now rewrite orb_true_r.
Qed.

(** ** The storage step *)

Lemma resolve_app (p q : path) :
  forall x,
    resolve (p ++ q) x =
    match resolve p x with
    | Some y => resolve q y
    | None => None
    end.
Proof.
  induction p as [|c p IH]; intros x; [reflexivity|].
  simpl. destruct x as [|es]; [reflexivity|].
  destruct (lookup c es); [apply IH|reflexivity].
Qed.

Lemma is_dir_unobstructed (p : path) :
  forall x, is_dir (resolve p x) = true -> unobstructed p x = true.
Proof.
  induction p as [|c p IH]; intros [d|es]; simpl; try discriminate; auto.
  destruct (lookup c es); [apply IH|discriminate].
Qed.

Lemma within_ok (f : listing -> result listing) (p : path) :
  forall fs sub sub',
    resolve p (Dir fs) = Some (Dir sub) ->
    f sub = inr sub' ->
    exists fs', within p f fs = inr fs'.
Proof.
  induction p as [|c p IH]; intros fs sub sub' Hr Hf.
  - simpl in *. inversion Hr. subst. eauto.
  - simpl in *. destruct (lookup c fs) as [[|s]|]; try discriminate.
    + destruct p; discriminate.
    + destruct (IH s sub sub' Hr Hf) as (s' & ->). simpl. eauto.
Qed.

Lemma within_set_id (leaf : string) (x : node) (p : path) :
  forall fs fs',
    within p (fun d => inr (set leaf x d)) fs = inr fs' ->
    resolve (p ++ [leaf]) (Dir fs) = Some x ->
    fs' = fs.
Proof.
  induction p as [|c p IH]; intros fs fs' H Hr.
  - simpl in *. inversion H. apply set_lookup_id.
    destruct (lookup leaf fs); congruence.
  - simpl in *. destruct (lookup c fs) as [[|s]|] eqn:El; try discriminate.
    apply into_inr in H as (s' & Hs & ->).
    rewrite (IH s s' Hs Hr). now apply set_lookup_id.
Qed.

Lemma mkdir_existing (p : path) (w : world) :
  is_dir (resolve p (Dir (data_root w))) = true ->
  mkdir p true true w = Done tt w.
Proof.
  intros H.
  destruct (Path_mkdir_ok p _ (is_dir_unobstructed _ _ H))
    as (fs' & Hm & _ & Hsame & _).
  unfold mkdir, on_data_root. rewrite Hm, (Hsame H). now destruct w.
Qed.

Lemma db_path_app (w : world) :
  db_path w = app_data_dir w ++ ["opennutrition_foods.db"].
Proof. reflexivity. Qed.

Lemma storage_unfold (df : DataFrame) (w : world) :
  storage df w =
  (mkdir (app_data_dir w) true true ;;
   write_database df (app_data_dir w)) w.
Proof. reflexivity. Qed.

(** The parent of an existing entry is a directory. *)
Lemma parent_is_dir (p : path) (leaf : string) (x y : node) :
  resolve (p ++ [leaf]) x = Some y ->
  exists sub, resolve p x = Some (Dir sub) /\ lookup leaf sub = Some y.
Proof.
  rewrite resolve_app. destruct (resolve p x) as [[d|sub]|]; try discriminate.
  simpl. destruct (lookup leaf sub) as [z|] eqn:El; [|discriminate].
  intros H. inversion H. subst. eauto.
Qed.

Lemma resolve_in_empty (c : string) (q : path) : resolve (c :: q) (Dir []) = None.
Proof. reflexivity. Qed.

Lemma unobstructed_File (p : path) (d : payload) : unobstructed p (File d) = false.
Proof. now destruct p. Qed.

(** Making the directory does not make the file. *)
Lemma Path_mkdir_fresh (leaf : string) (p : path) :
  forall fs fs',
    unobstructed p (Dir fs) = true ->
    resolve (p ++ [leaf]) (Dir fs) = None ->
    Path_mkdir true true p fs = inr fs' ->
    resolve (p ++ [leaf]) (Dir fs') = None.
Proof.
  induction p as [|c q IH]; intros fs fs' Hu Hn Hm.
  - unfold Path_mkdir in Hm. simpl in Hm. unfold tolerate in Hm. simpl in Hm.
    inversion Hm. now subst.
  - simpl in Hu. cbn [app] in *. rewrite resolve_cons in Hn.
    destruct (lookup c fs) as [[d|sub]|] eqn:El.
    + rewrite unobstructed_File in Hu. discriminate.
    + rewrite (Path_mkdir_descend c q fs sub El) in Hm.
      apply into_inr in Hm as (sub' & Hs & ->).
      rewrite resolve_cons, lookup_set_same. eapply IH; eauto.
    + rewrite (Path_mkdir_create c q fs El) in Hm.
      apply into_inr in Hm as (sub' & Hs & ->).
      rewrite resolve_cons, lookup_set_same.
      apply (IH [] sub'); auto.
      * apply unobstructed_empty.
      * destruct q; reflexivity.
Qed.

Lemma within_set_resolve (leaf : string) (x : node) (p : path) :
  forall fs fs',
    within p (fun d => inr (set leaf x d)) fs = inr fs' ->
    resolve (p ++ [leaf]) (Dir fs') = Some x.
Proof.
  induction p as [|c rest IH]; intros fs fs' H.
  - simpl in *. inversion H. now rewrite lookup_set_same.
  - simpl in H. destruct (lookup c fs) as [[|sub]|]; try discriminate.
    apply into_inr in H as (sub' & Hs & ->).
    simpl. rewrite lookup_set_same. eapply IH; eauto.
Qed.

(** Writing an entry twice leaves the second. *)
Lemma within_set_twice (leaf : string) (x y : node) (p : path) :
  forall fs fs1,
    within p (fun d => inr (set leaf x d)) fs = inr fs1 ->
    within p (fun d => inr (set leaf y d)) fs1 =
    within p (fun d => inr (set leaf y d)) fs.
Proof.
  induction p as [|c rest IH]; intros fs fs1 H.
  - simpl in *. inversion H. now rewrite set_set.
  - simpl in *. destruct (lookup c fs) as [[|sub]|]; try discriminate.
    apply into_inr in H as (sub' & Hs & ->).
    rewrite lookup_set_same, (IH _ _ Hs).
    destruct (within rest (fun d => inr (set leaf y d)) sub) as [|sub''];
      simpl; [reflexivity|].
    now rewrite set_set.
Qed.

Lemma within_set_any (leaf : string) (x y : node) (p : path) :
  forall fs fs1,
    within p (fun d => inr (set leaf x d)) fs = inr fs1 ->
    exists fs2, within p (fun d => inr (set leaf y d)) fs = inr fs2.
Proof.
  induction p as [|c rest IH]; intros fs fs1 H.
  - simpl. eauto.
  - simpl in *. destruct (lookup c fs) as [[|sub]|]; try discriminate.
    apply into_inr in H as (sub' & Hs & _).
    destruct (IH _ _ Hs) as (sub2 & ->). simpl. eauto.
Qed.

Lemma on_data_root_Done f w w' :
  on_data_root f w = Done tt w' ->
  exists fs, f (data_root w) = inr fs /\ w' = with_data_root fs w.
Proof.
  unfold on_data_root. destruct (f (data_root w)) as [|fs]; [discriminate|].
  intros H. inversion H. eauto.
Qed.

Lemma connect_Done p w con w' : connect p w = Done con w' -> con = p.
Proof.
  unfold connect.
  destruct (resolve p (Dir (data_root w))) as [[|]|];
    destruct (split_last p) as [[parent leaf]|]; try discriminate;
    try (intros H; inversion H; reflexivity).
  destruct (within parent _ (data_root w)); [discriminate|].
  intros H. inversion H. reflexivity.
Qed.

Lemma load_Done con w db w' :
  load con w = Done db w' ->
  w' = w /\
  exists d, resolve con (Dir (data_root w)) = Some (File d) /\
            database_in (os w) d = Some db.
Proof.
  unfold load.
  destruct (resolve con (Dir (data_root w))) as [[d|]|]; try discriminate.
  destruct (database_in (os w) d) eqn:E; [|discriminate].
  intros H. inversion H; subst. eauto.
Qed.

Section Connection.

Variables (parent : path) (leaf : string).

Lemma commit_snoc (db : database) :
  commit (parent ++ [leaf]) db =
  on_data_root (within parent (fun d => inr (set leaf (File (Sqlite db)) d))).
Proof. unfold commit. now rewrite split_last_snoc. Qed.

(** The file of an open database can be written. *)
Lemma commit_ok (db : database) (w : world) (d : payload) :
  resolve (parent ++ [leaf]) (Dir (data_root w)) = Some (File d) ->
  exists w1, commit (parent ++ [leaf]) db w = Done tt w1.
Proof.
  intros H. destruct (parent_is_dir _ _ _ _ H) as (sub & Hd & _).
  destruct (within_ok (fun e => inr (set leaf (File (Sqlite db)) e))
                      _ _ sub _ Hd eq_refl) as (fs & Hw).
  rewrite commit_snoc. unfold on_data_root. rewrite Hw. eauto.
Qed.

(** A later commit overwrites an earlier one. *)
Lemma commit_after (db db' : database) (w w1 : world) :
  commit (parent ++ [leaf]) db w = Done tt w1 ->
  commit (parent ++ [leaf]) db' w1 = commit (parent ++ [leaf]) db' w.
Proof.
  rewrite !commit_snoc. unfold on_data_root.
  destruct (within parent _ (data_root w)) as [|fs1] eqn:E1; [discriminate|].
  intros H. inversion H; subst w1. cbn [data_root with_data_root].
  rewrite (within_set_twice _ _ (File (Sqlite db')) _ _ _ E1).
  destruct (within_set_any _ _ (File (Sqlite db')) _ _ _ E1) as (fs2 & ->).
  reflexivity.
Qed.

Lemma execute_Done (stmt : Sql.statement) (db db' : database) (w w1 : world) :
  stmt db = inr db' ->
  commit (parent ++ [leaf]) db' w = Done tt w1 ->
  execute (parent ++ [leaf]) stmt db w = Done db' w1.
Proof. intros Hs Hc. unfold execute. rewrite Hs. unfold bind. now rewrite Hc. Qed.

Lemma execute_Done_inv (stmt : Sql.statement) (db r : database) (w w' : world) :
  execute (parent ++ [leaf]) stmt db w = Done r w' ->
  stmt db = inr r /\ commit (parent ++ [leaf]) r w = Done tt w'.
Proof.
  unfold execute. destruct (stmt db) as [e|db']; [discriminate|].
  intros H. apply bind_Done in H as ([] & w1 & Hc & H).
  inversion H; subst. auto.
Qed.

(** A write that goes through amounts to one commit of the database
    without the old table and with the new one. *)
Lemma to_sql_replace_eq (df : DataFrame) (name : string) (db : database)
      (w : world) :
  load (parent ++ [leaf]) w = Done db w ->
  Sql.writable name df db = true ->
  to_sql df name (parent ++ [leaf]) Sql.replace false w =
  commit (parent ++ [leaf])
         (Sql.drop_table name db ++ [(name, Sql.frame_table false df)]) w.
Proof.
  intros Hl Hw.
  destruct (writable_inv _ _ _ Hw) as (Hset & Hcreate & Hbind).
  destruct (load_Done _ _ _ _ Hl) as (_ & d & Hr & _).
  destruct (commit_ok (Sql.drop_table name db) w d Hr) as (w1 & Hc1).
  destruct (commit_ok (Sql.drop_table name db ++
                       [(name, mkTable (schema (Sql.frame_table false df)) [])])
                      w d Hr) as (w2 & Hc2).
  destruct (commit_ok (Sql.drop_table name db ++
                       [(name, Sql.frame_table false df)]) w d Hr)
    as (w3 & Hc3).
  rewrite Hc3.
  assert (Hins : Sql.INSERT name (rows (Sql.frame_table false df))
                   (Sql.drop_table name db ++
                    [(name, mkTable (schema (Sql.frame_table false df)) [])]) =
                 inr (Sql.drop_table name db ++
                      [(name, Sql.frame_table false df)])).
  { unfold Sql.INSERT. cbn [Sql.frame_table rows]. rewrite Hbind.
    rewrite insert_rows_fresh by apply lookup_table_drop. reflexivity. }
  assert (Hfill : (execute (parent ++ [leaf])
                     (Sql.INSERT name (rows (Sql.frame_table false df)))
                     (Sql.drop_table name db ++
                      [(name, mkTable (schema (Sql.frame_table false df)) [])]) ;;
                   ret tt) w2 = Done tt w3).
  { rewrite (bind_of_Done _ _ w2
               (Sql.drop_table name db ++ [(name, Sql.frame_table false df)])
               w3); [reflexivity|].
    apply (execute_Done _ _ _ _ _ Hins).
    rewrite (commit_after _ (Sql.drop_table name db ++
                             [(name, Sql.frame_table false df)]) _ _ Hc2).
    exact Hc3. }
  unfold to_sql. rewrite Hset.
  rewrite (bind_of_Done _ _ w (Sql.frame_table false df) w) by reflexivity.
  rewrite (bind_of_Done _ _ w db w) by exact Hl.
  rewrite (bind_of_Done _ _ w
             (Sql.drop_table name db ++
              [(name, mkTable (schema (Sql.frame_table false df)) [])]) w2);
    [exact Hfill|].
  destruct (Sql.lookup_table name db) eqn:El.
  - rewrite (bind_of_Done _ _ w (Sql.drop_table name db) w1)
      by (now apply execute_Done).
    apply (execute_Done _ _ _ _ _ Hcreate).
    rewrite (commit_after _ (Sql.drop_table name db ++
               [(name, mkTable (schema (Sql.frame_table false df)) [])])
               _ _ Hc1).
    exact Hc2.
  - rewrite (drop_table_absent _ _ El) in *.
    now apply (execute_Done _ _ _ _ _ Hcreate).
Qed.

(** A write that ran to its end went through. *)
Lemma to_sql_replace_Done (df : DataFrame) (name : string) (w w' : world) :
  to_sql df name (parent ++ [leaf]) Sql.replace false w = Done tt w' ->
  exists db,
    load (parent ++ [leaf]) w = Done db w /\
    Sql.writable name df db = true /\
    commit (parent ++ [leaf])
           (Sql.drop_table name db ++ [(name, Sql.frame_table false df)]) w =
      Done tt w'.
Proof.
  intros H.
  assert (E : exists db, load (parent ++ [leaf]) w = Done db w /\
                         Sql.writable name df db = true).
  { unfold to_sql in H. apply bind_Done in H as (t & w0 & Ht & H).
    unfold lift in Ht.
    destruct (Sql.table_setup false df) as [|t'] eqn:Es; [discriminate|].
    inversion Ht; subst t' w0. clear Ht.
    apply bind_Done in H as (db & w1 & Hl & H).
    destruct (load_Done _ _ _ _ Hl) as (-> & _).
    apply bind_Done in H as (db1 & w2 & Hm & H).
    apply bind_Done in H as (dbf & w3 & Hi & _).
    apply execute_Done_inv in Hi as (Hi & _).
    exists db. split; [exact Hl|]. unfold Sql.writable. rewrite Es.
    assert (Hb : forallb (forallb Sql.bindable) (rows t) = true).
    { unfold Sql.INSERT in Hi.
      destruct (forallb _ (rows t)); [reflexivity|discriminate]. }
    rewrite Hb.
    destruct (Sql.lookup_table name db) eqn:El.
    - apply bind_Done in Hm as (db' & w4 & Hd & Hm).
      apply execute_Done_inv in Hd as (Hd & _).
      unfold Sql.DROP_TABLE in Hd. inversion Hd; subst db'.
      apply execute_Done_inv in Hm as (Hm & _). now rewrite Hm.
    - apply execute_Done_inv in Hm as (Hm & _).
      rewrite (drop_table_absent _ _ El). now rewrite Hm. }
  destruct E as (db & Hl & Hw).
  exists db. split; [exact Hl|]. split; [exact Hw|].
  now rewrite <- (to_sql_replace_eq df name db w Hl Hw).
Qed.


End Connection.

(** What a storage step that ends well has written. *)
Lemma storage_Done (df : DataFrame) w w' :
  storage df w = Done tt w' ->
  exists db0,
    resolve (db_path w) (Dir (data_root w')) =
    Some (File (Sqlite (Sql.drop_table "opennutrition_foods" db0 ++
                        [("opennutrition_foods", Sql.frame_table false df)]))) /\
    Sql.writable "opennutrition_foods" df db0 = true.
Proof.
  unfold storage, write_database. intros H.
  apply bind_Done in H as (d & w0 & Hd & H).
  assert (Ed : db_path w = d ++ ["opennutrition_foods.db"])
    by (unfold db_path; now rewrite Hd).
  rewrite Ed. clear Hd Ed.
  step H w1 Hmk.
  apply bind_Done in H as (con & w2 & Hc & H).
  apply connect_Done in Hc. subst con.
  apply bind_Done in H as ([] & w3 & Hs & Hp).
  apply to_sql_replace_Done in Hs as (db0 & _ & Hw & Hs).
  rewrite commit_snoc in Hs.
  apply on_data_root_Done in Hs as (fs & Hs & ->).
  apply within_set_resolve in Hs.
  exists db0. inversion Hp. simpl. auto.
Qed.

(** What the storage step does when the database file is there. *)
Lemma storage_existing (df : DataFrame) (w : world) (d : payload)
      (db0 : database) :
  resolve (db_path w) (Dir (data_root w)) = Some (File d) ->
  database_in (os w) d = Some db0 ->
  Sql.writable "opennutrition_foods" df db0 = true ->
  exists fs',
    within (app_data_dir w)
      (fun e => inr (set "opennutrition_foods.db"
                         (File (Sqlite (Sql.drop_table "opennutrition_foods" db0 ++
                                        [("opennutrition_foods",
                                          Sql.frame_table false df)]))) e))
      (data_root w) = inr fs' /\
    storage df w =
    Done tt (log (Print ("Database created at: " ++
                         String.concat "/" (db_path w)))
                 (with_data_root fs' w)).
Proof.
  intros H Hdb Hw. rewrite db_path_app in *.
  destruct (parent_is_dir _ _ _ _ H) as (sub & Hd & Hleaf).
  destruct (within_ok
              (fun e => inr (set "opennutrition_foods.db"
                         (File (Sqlite (Sql.drop_table "opennutrition_foods" db0 ++
                                        [("opennutrition_foods",
                                          Sql.frame_table false df)]))) e))
              _ _ sub _ Hd eq_refl) as (fs' & Hfs).
  exists fs'. split; [exact Hfs|].
  rewrite storage_unfold.
  rewrite (bind_of_Done _ _ w tt w) by (apply mkdir_existing; now rewrite Hd).
  unfold write_database.
  rewrite (bind_of_Done _ _ w (app_data_dir w ++ ["opennutrition_foods.db"]) w).
  2:{ unfold connect. now rewrite H. }
  rewrite (bind_of_Done _ _ w tt (with_data_root fs' w)); [reflexivity|].
  rewrite (to_sql_replace_eq _ _ df _ db0 w);
    [|unfold load; now rewrite H, Hdb|exact Hw].
  rewrite commit_snoc. unfold on_data_root. now rewrite Hfs.
Qed.

(** What it does when there is no database file and nothing stands in the
    way of the application-data directory. *)
Lemma storage_fresh (df : DataFrame) (w : world) :
  unobstructed (app_data_dir w) (Dir (data_root w)) = true ->
  resolve (db_path w) (Dir (data_root w)) = None ->
  Sql.writable "opennutrition_foods" df [] = true ->
  exists fs',
    resolve (db_path w) (Dir fs') =
      Some (File (Sqlite [("opennutrition_foods", Sql.frame_table false df)])) /\
    storage df w =
    Done tt (log (Print ("Database created at: " ++
                         String.concat "/" (db_path w)))
                 (with_data_root fs' w)).
Proof.
  intros Hu Hn Hwr. rewrite db_path_app in *.
  set (d := app_data_dir w) in *.
  set (leaf := "opennutrition_foods.db") in *.
  destruct (Path_mkdir_ok d _ Hu) as (fs1 & Hm & Hpre & _ & _).
  pose proof (Path_mkdir_fresh leaf d _ _ Hu Hn Hm) as Hn1.
  assert (Hd1 : exists sub, resolve d (Dir fs1) = Some (Dir sub)).
  { specialize (Hpre d [] (eq_sym (app_nil_r d))).
    destruct (resolve d (Dir fs1)) as [[|sub]|]; try discriminate. eauto. }
  destruct Hd1 as (sub1 & Hd1).
  destruct (within_ok (fun e => inr (set leaf (File (Bytes "")) e))
                      d fs1 sub1 _ Hd1 eq_refl) as (fs2 & Hw2).
  pose proof (within_set_resolve _ _ _ _ _ Hw2) as Hr2.
  destruct (parent_is_dir _ _ _ _ Hr2) as (sub2 & Hd2 & _).
  destruct (within_ok
              (fun e => inr (set leaf
                 (File (Sqlite [("opennutrition_foods", Sql.frame_table false df)])) e))
              d fs2 sub2 _ Hd2 eq_refl) as (fs3 & Hw3).
  pose proof (within_set_resolve _ _ _ _ _ Hw3) as Hr3.
  exists fs3. split; [exact Hr3|].
  rewrite storage_unfold. fold d.
  rewrite (bind_of_Done _ _ w tt (with_data_root fs1 w))
    by (unfold mkdir, on_data_root; now rewrite Hm).
  unfold write_database. fold leaf.
  rewrite (bind_of_Done _ _ (with_data_root fs1 w) (d ++ [leaf])
             (with_data_root fs2 (with_data_root fs1 w))).
  2:{ unfold connect. cbn [data_root with_data_root].
      now rewrite Hn1, split_last_snoc, Hw2. }
  rewrite (bind_of_Done _ _ (with_data_root fs2 (with_data_root fs1 w)) tt
             (with_data_root fs3 w)); [reflexivity|].
  rewrite (to_sql_replace_eq _ _ df _ [] _);
    [|unfold load; cbn [data_root with_data_root]; now rewrite Hr2|exact Hwr].
  rewrite commit_snoc. unfold on_data_root. cbn [data_root with_data_root].
  cbn [Sql.drop_table filter app]. now rewrite Hw3.
Qed.


(** ** A run that ends well *)

(** A parse that ends well has split the text into records and made the
    frame from them. *)
Lemma parse_tsv_inr (text : string) (df : DataFrame) :
  parse_tsv text = inr df ->
  exists header body,
    records text = header :: body /\
    frame_of_records (header :: body) = inr df.
Proof.
  unfold parse_tsv, records.
  destruct (Tokenizer.tokenize text) as [|rs]; [discriminate|].
  destruct (forallb Utf8.decodes (hd [] rs)); [|discriminate].
  destruct (frame_of_records rs) as [|df'] eqn:E; [discriminate|].
  destruct (forallb (forallb Utf8.decodes) rs); [|discriminate].
  intros H. inversion H; subst df'.
  destruct rs as [|header body]; [discriminate|]. eauto.
Qed.

Lemma parse_tsv_len (text : string) (df : DataFrame) :
  parse_tsv text = inr df -> len df = length (data_rows text).
Proof.
  intros H. apply parse_tsv_inr in H as (header & body & Hr & H).
  unfold data_rows, len. rewrite Hr. simpl in *.
  destruct (existsb _ body); [discriminate|].
  inversion H. simpl. now rewrite !length_map.
Qed.

(** C1 as stated fails: a first run that dies while unpacking leaves the
    dataset and the archive behind; the next run finds the dataset, skips
    the acquisition and ends well with the archive still in the script's
    directory. *)
Lemma C1_archive_left_from_failed_run :
  ~ (forall w w' : world,
       main w = Done tt w' -> lookup zip_path (script_dir w') = None).
Proof.
  intros H.
  assert (E : exists w', main Rerun.second_try = Done tt w' /\
                         lookup zip_path (script_dir w') <> None).
  { eexists. split; [vm_compute; reflexivity|]. discriminate. }
  destruct E as (w' & E & Hz). apply Hz. exact (H _ _ E).
Qed.

(** C1, amended.  After a run that ends well, the dataset is a text file
    at its place, the database file exists and holds exactly one table
    [opennutrition_foods], with one row for each data row of the dataset
    (the records after the header).  If the dataset was missing when the
    run began, no archive is left in the script's directory; if it was
    there, the script's directory is as it was. *)
Theorem C1_successful_run :
  forall w w' : world,
    main w = Done tt w' ->
    (exists text db t,
       lookup tsv_file (script_dir w') = Some (File (Bytes text)) /\
       resolve (db_path w) (Dir (data_root w')) = Some (File (Sqlite db)) /\
       Sql.count_tables "opennutrition_foods" db = 1%nat /\
       Sql.lookup_table "opennutrition_foods" db = Some t /\
       length (rows t) = length (data_rows text)) /\
    (lookup tsv_file (script_dir w) = None ->
     lookup zip_path (script_dir w') = None) /\
    (lookup tsv_file (script_dir w) <> None ->
     script_dir w' = script_dir w).
Proof.
  intros w w' H.
  destruct (main_Done _ _ H) as (w1 & df & Hacq & Hread & Hst).
  pose proof (keeps_Done script_dir _ _ _ _ (storage_keeps df) Hst) as Es.
  pose proof (keeps_Done outside _ _ _ _ acquisition_keeps Hacq) as Eo.
  apply read_csv_Done in Hread as [_ (text & Hl & Hparse)].
  split; [|split].
  - destruct (storage_Done _ _ _ Hst) as (db0 & Hdb & _).
    exists text. eexists. exists (Sql.frame_table false df).
    rewrite Es. split; [exact Hl|]. split; [|split; [|split]].
    + replace (db_path w) with (db_path w1); [exact Hdb|].
      unfold db_path, user_data_dir. unfold outside in Eo.
      inversion Eo. congruence.
    + apply count_tables_written.
    + apply lookup_table_written.
    + simpl. now apply parse_tsv_len.
  - intros Habs. rewrite Es.
    rewrite acquisition_absent in Hacq by auto.
    step Hacq wa Hfetch.
    apply bind_Done in Hacq as ([] & wb & Hc & Hp).
    inversion Hp. simpl.
    now rewrite (cleanup_Done_lookup _ _ zip_path Hc).
  - intros Hpres. rewrite Es.
    rewrite (acquisition_present w Hpres) in Hacq. now inversion Hacq.
Qed.

(** ** Writing the table twice *)


(** The other ways in which a table is refused: two column names that
    differ in case only, an empty column name, no column at all, and a
    table in the database whose name differs from the one to be written in
    case only. *)
Example refused_writes :
  (exists e w',
     storage (mkDataFrame (RangeIndex 0) [("A", int64); ("a", int64)] [])
             Sample.fresh = Raised e w') /\
  (exists e w',
     storage (mkDataFrame (RangeIndex 0) [("", object)] [])
             Sample.fresh = Raised e w') /\
  (exists e w',
     storage (mkDataFrame (RangeIndex 0) [] []) Sample.fresh = Raised e w') /\
  (exists e w',
     storage Fixtures.sample_frame Cases.other_case = Raised e w').
Proof. repeat split; do 2 eexists; vm_compute; reflexivity. Qed.


(** ** The statements at work on the sample data *)

Lemma C1_successful_run_witness :
  main Sample.fresh = Done tt Fixtures.settled /\
  ((exists text db t,
      lookup tsv_file (script_dir Fixtures.settled) = Some (File (Bytes text)) /\
      resolve (db_path Sample.fresh) (Dir (data_root Fixtures.settled)) =
        Some (File (Sqlite db)) /\
      Sql.count_tables "opennutrition_foods" db = 1%nat /\
      Sql.lookup_table "opennutrition_foods" db = Some t /\
      length (rows t) = length (data_rows text)) /\
   (lookup tsv_file (script_dir Sample.fresh) = None ->
    lookup zip_path (script_dir Fixtures.settled) = None) /\
   (lookup tsv_file (script_dir Sample.fresh) <> None ->
    script_dir Fixtures.settled = script_dir Sample.fresh)).
Proof.
  split.
  - vm_compute. reflexivity.
  - apply (C1_successful_run Sample.fresh Fixtures.settled).
    vm_compute. reflexivity.
Defined.

Lemma C2_acquisition_skipped_witness :
  lookup tsv_file (script_dir Fixtures.settled) <> None /\
  acquisition Fixtures.settled = Done tt Fixtures.settled /\
  trace (final (acquisition Fixtures.settled)) = trace Fixtures.settled /\
  main Sample.fresh = Done tt Fixtures.settled.
Proof.
  assert (H : lookup tsv_file (script_dir Fixtures.settled) <> None)
    by (vm_compute; discriminate).
  destruct (C2_acquisition_skipped Fixtures.settled) as [Hskip _].
  destruct (Hskip H) as (E & Etrace & _).
  split; [exact H|]. split; [exact E|]. split; [exact Etrace|].
  vm_compute. reflexivity.
Defined.


Lemma C5_missing_dataset_aborts_run_witness :
  lookup tsv_file (script_dir Fixtures.empty_handed) = None /\
  archive_has_file tsv_file Scenario.stale_archive = false /\
  holds_file tsv_file (Dir (script_dir Fixtures.empty_handed)) = false /\
  exists e w',
    main Fixtures.empty_handed = Raised e w' /\
    data_root w' = data_root Fixtures.empty_handed.
Proof.
  assert (H1 : lookup tsv_file (script_dir Fixtures.empty_handed) = None)
    by (vm_compute; reflexivity).
  assert (H2 : archive_has_file tsv_file Scenario.stale_archive = false)
    by (vm_compute; reflexivity).
  assert (H3 : holds_file tsv_file (Dir (script_dir Fixtures.empty_handed)) = false)
    by (vm_compute; reflexivity).
  split; [exact H1|]. split; [exact H2|]. split; [exact H3|].
  exact (C5_missing_dataset_aborts_run Fixtures.empty_handed
           Scenario.stale_archive H1 eq_refl H2 H3).
Defined.

Lemma C6_acquisition_result_witness :
  wf (Dir (script_dir Sample.fresh)) = true /\
  lookup tsv_file (script_dir Sample.fresh) = None /\
  archive_has_file tsv_file Fixtures.members = true /\
  acquisition Sample.fresh = Done tt Fixtures.acquired /\
  is_file (lookup tsv_file (script_dir Fixtures.acquired)) = true /\
  lookup zip_path (script_dir Fixtures.acquired) = None /\
  (forall name, notice name = true ->
     lookup name (script_dir Fixtures.acquired) = None).
Proof.
  assert (H1 : wf (Dir (script_dir Sample.fresh)) = true)
    by (vm_compute; reflexivity).
  assert (H2 : lookup tsv_file (script_dir Sample.fresh) = None)
    by (vm_compute; reflexivity).
  assert (H3 : archive_has_file tsv_file Fixtures.members = true)
    by (vm_compute; reflexivity).
  assert (H4 : acquisition Sample.fresh = Done tt Fixtures.acquired)
    by (vm_compute; reflexivity).
  split; [exact H1|]. split; [exact H2|]. split; [exact H3|].
  split; [exact H4|].
  exact (C6_acquisition_result Sample.fresh Fixtures.acquired Fixtures.members
           H1 H2 eq_refl H3 H4).
Defined.

Lemma C7_cleanup_removes_only_archive_and_notices_witness :
  cleanup Fixtures.unpacked =
    Raised IsADirectoryError (final (cleanup Fixtures.unpacked)) /\
  lookup "convert.py" (script_dir (final (cleanup Fixtures.unpacked))) =
    lookup "convert.py" (script_dir Fixtures.unpacked) /\
  lookup tsv_file (script_dir (final (cleanup Fixtures.unpacked))) =
    lookup tsv_file (script_dir Fixtures.unpacked).
Proof.
  destruct (C7_cleanup_removes_only_archive_and_notices Fixtures.unpacked)
    as (Hkeep & _ & _).
  split; [vm_compute; reflexivity|].
  split; apply Hkeep; vm_compute; reflexivity.
Defined.


Lemma C9_app_data_dir_created_witness :
  unobstructed (app_data_dir Sample.fresh) (Dir (data_root Sample.fresh)) = true /\
  exists w',
    mkdir (app_data_dir Sample.fresh) true true Sample.fresh = Done tt w' /\
    is_dir (resolve ["home"; "user"; ".local"] (Dir (data_root w'))) = true /\
    is_dir (resolve (app_data_dir Sample.fresh) (Dir (data_root w'))) = true.
Proof.
  assert (H : unobstructed (app_data_dir Sample.fresh)
                           (Dir (data_root Sample.fresh)) = true)
    by (vm_compute; reflexivity).
  split; [exact H|].
  destruct (C9_app_data_dir_created Sample.fresh H) as (w' & E & Hpre & _).
  exists w'. split; [exact E|]. split.
  - apply (Hpre ["home"; "user"; ".local"] ["share"; "DailyMealPlannerExtended"]).
    vm_compute. reflexivity.
  - apply (Hpre (app_data_dir Sample.fresh) []). symmetry. apply app_nil_r.
Defined.

Lemma C10_notice_directory_aborts_run_witness :
  notice "README" = true /\
  lookup "README" (script_dir Fixtures.unpacked) =
    Some (Dir [("notes.txt", File (Bytes "notes"))]) /\
  lookup tsv_file (script_dir Fixtures.readme_folder) = None /\
  until_cleanup Fixtures.readme_folder = Done tt Fixtures.unpacked /\
  exists e w',
    cleanup Fixtures.unpacked = Raised e w' /\
    main Fixtures.readme_folder = Raised e w' /\
    data_root w' = data_root Fixtures.readme_folder.
Proof.
  assert (H1 : notice "README" = true) by (vm_compute; reflexivity).
  assert (H2 : lookup "README" (script_dir Fixtures.unpacked) =
               Some (Dir [("notes.txt", File (Bytes "notes"))]))
    by (vm_compute; reflexivity).
  assert (H3 : lookup tsv_file (script_dir Fixtures.readme_folder) = None)
    by (vm_compute; reflexivity).
  assert (H4 : until_cleanup Fixtures.readme_folder = Done tt Fixtures.unpacked)
    by (vm_compute; reflexivity).
  split; [exact H1|]. split; [exact H2|]. split; [exact H3|].
  split; [exact H4|].
  destruct (C10_notice_directory_aborts_run Fixtures.unpacked "README"
              [("notes.txt", File (Bytes "notes"))] H1 H2)
    as (e & w' & Hc & _ & Hrun).
  destruct (Hrun Fixtures.readme_folder H3 H4) as [Hm Hd].
  exists e, w'. split; [exact Hc|]. split; [exact Hm|exact Hd].
Defined.

(** * Further properties of the script *)

(** ** What each half of the script can touch *)

Section Blind.

(** An observation that sees neither the script's directory nor what is
    printed. *)
Context {X : Type} (obs : world -> X).
Hypothesis obs_script : forall es w, obs (with_script_dir es w) = obs w.
Hypothesis obs_print : forall line w, obs (log (Print line) w) = obs w.

Lemma blind_on_script_dir f : keeps obs (on_script_dir f).
Proof.
  intros w. unfold on_script_dir. destruct (f (script_dir w)); simpl; auto.
Qed.

Lemma blind_print line : keeps obs (print line).
Proof. intros w. apply obs_print. Qed.

Lemma blind_rename src dst : keeps obs (rename src dst).
Proof.
  intros w. unfold rename.
  destruct (split_last src) as [[parent leaf]|]; [|reflexivity].
  destruct (resolve src _) as [x|]; [|reflexivity].
  assert (Hmove : forall f, obs (final (on_script_dir f w)) = obs w)
    by (intros f; apply blind_on_script_dir).
  destruct (lookup dst (script_dir w)) as [[d|[|]]|], x, (os w);
    try reflexivity; apply Hmove.
Qed.

Lemma blind_unlink name : keeps obs (unlink name).
Proof.
  intros w. unfold unlink.
  destruct (lookup name (script_dir w)) as [[|]|]; simpl; auto.
Qed.

Lemma blind_find_tsv : keeps obs find_tsv.
Proof.
  apply keeps_bind; [now intros w|]. intros visits.
  apply keeps_for_each. intros v.
  induction (snd v) as [|file rest IH]; simpl.
  - apply keeps_ret.
  - destruct (String.eqb file _); [|exact IH].
    destruct (negb _); [|apply keeps_ret].
    apply keeps_bind; [apply blind_rename|intros _; apply blind_print].
Qed.

Lemma blind_extractall ms : keeps obs (extractall ms).
Proof. apply keeps_for_each. intros m. apply blind_on_script_dir. Qed.

Lemma blind_cleanup : keeps obs cleanup.
Proof.
  unfold cleanup, remove_notices.
  apply keeps_bind; [apply blind_unlink|intros _].
  apply keeps_bind; [apply blind_print|intros _].
  apply keeps_bind; [now intros w|intros items].
  apply keeps_for_each. intros item.
  apply keeps_if; [apply blind_unlink|apply keeps_ret].
Qed.

(** Everything of the download after the request itself. *)
Lemma blind_after_request :
  keeps obs (print ("Downloaded " ++ zip_path) ;;
             zip_ref <- ZipFile zip_path ;;
             extractall zip_ref ;;
             print "Extracted files" ;;
             find_tsv).
Proof.
  apply keeps_bind; [apply blind_print|intros _].
  apply keeps_bind; [apply ZipFile_keeps|intros ms].
  apply keeps_bind; [apply blind_extractall|intros _].
  apply keeps_bind; [apply blind_print|intros _].
  apply blind_find_tsv.
Qed.

End Blind.

Lemma requests_app (t u : list event) :
  requests (t ++ u) = requests t ++ requests u.
Proof.
  induction t as [|[url|line] t IH]; simpl; auto. now rewrite IH.
Qed.

Lemma sent_script es w : sent (with_script_dir es w) = sent w.
Proof. reflexivity. Qed.

Lemma sent_data fs w : sent (with_data_root fs w) = sent w.
Proof. reflexivity. Qed.

Lemma sent_print line w : sent (log (Print line) w) = sent w.
Proof. unfold sent. simpl. rewrite requests_app. simpl. apply app_nil_r. Qed.

Lemma sent_request url w : sent (log (Request url) w) = sent w ++ [url].
Proof. unfold sent. simpl. now rewrite requests_app. Qed.

Lemma urlretrieve_sent url name w :
  sent (final (urlretrieve url name w)) = sent w ++ [url].
Proof.
  unfold urlretrieve. destruct (remote w url); simpl.
  - apply sent_request.
  - destruct (write_file _ _ _ _); simpl; apply sent_request.
  - unfold on_script_dir. simpl.
    destruct (write_file _ _ _ _); simpl; apply sent_request.
Qed.

(** A step that adds to an observation, followed by steps that keep it. *)
Lemma final_bind_keeps {X A B} (obs : world -> X) (m : M A) (k : A -> M B) w :
  (forall a, keeps obs (k a)) ->
  obs (final (bind m k w)) = obs (final (m w)).
Proof.
  intros Hk. unfold bind. destruct (m w) as [a w'|e w']; simpl; auto.
  apply Hk.
Qed.

Lemma storage_blind {X} (obs : world -> X) df :
  (forall fs w, obs (with_data_root fs w) = obs w) ->
  (forall line w, obs (log (Print line) w) = obs w) ->
  keeps obs (storage df).
Proof.
  intros Hd Hp. unfold storage, write_database.
  assert (Hon : forall f, keeps obs (on_data_root f)).
  { intros f w. unfold on_data_root. destruct (f (data_root w)); simpl; auto. }
  apply keeps_bind; [now intros w|intros d].
  apply keeps_bind; [apply Hon|intros _].
  apply keeps_bind.
  { intros w. unfold connect.
    destruct (resolve (d ++ ["opennutrition_foods.db"]) (Dir (data_root w)))
      as [[|]|];
      destruct (split_last (d ++ ["opennutrition_foods.db"]))
        as [[parent leaf]|]; try reflexivity.
    destruct (within parent _ (data_root w)); simpl; auto. }
  intros con. apply keeps_bind; [|intros _; intros w; apply Hp].
  assert (Hex : forall stmt db, keeps obs (execute con stmt db)).
  { intros stmt db. unfold execute. destruct (stmt db); [apply keeps_raise|].
    apply keeps_bind; [|intros _; apply keeps_ret].
    unfold commit. destruct (split_last con) as [[parent leaf]|].
    - apply Hon.
    - apply keeps_raise. }
  unfold to_sql. apply keeps_bind; [apply lift_keeps|intros t].
  apply keeps_bind; [apply load_keeps|intros db].
  apply keeps_bind.
  - destruct (Sql.lookup_table _ db);
      try apply Hex; try apply keeps_raise; try apply keeps_ret.
    apply keeps_bind; [apply Hex|intros db']. apply Hex.
  - intros db1. apply keeps_bind; [apply Hex|intros _; apply keeps_ret].
Qed.

(** X1.  A run sends exactly one request, to the fixed URL of the archive,
    when the dataset is missing at its start, and none when the dataset is
    there; this holds however the run ends. *)
Theorem X1_one_request_when_dataset_missing :
  forall w : world,
    sent (final (main w)) =
    sent w ++ (if present (lookup tsv_file (script_dir w)) then [] else [zip_url]).
Proof.
  intros w. unfold main.
  rewrite final_bind_keeps.
  2:{ intros _. apply keeps_bind; [apply read_csv_keeps|intros df].
      apply storage_blind; [apply sent_data|apply sent_print]. }
  unfold acquisition. unfold bind at 1. unfold exists_.
  destruct (lookup tsv_file (script_dir w)) as [x|]; simpl.
  - now rewrite app_nil_r.
  - unfold bind at 1. unfold print at 1.
    unfold fetch_and_unpack.
    rewrite final_bind_keeps.
    2:{ intros _. apply keeps_bind;
          [apply blind_cleanup; [apply sent_script|apply sent_print]|].
        intros _ w'. apply sent_print. }
    rewrite final_bind_keeps.
    2:{ intros _.
        apply (blind_after_request sent); [apply sent_script|apply sent_print]. }
    now rewrite urlretrieve_sent, sent_print.
Qed.

(** X2.  Lines 13-52 (acquisition and parse) change nothing outside the
    script's directory, and lines 57-63 (storage) leave the script's
    directory as it is; both hold for every outcome, failed runs
    included. *)
Theorem X2_two_halves_keep_apart :
  forall w : world,
    outside (final ((acquisition ;; read_csv tsv_file) w)) = outside w /\
    forall df, script_dir (final (storage df w)) = script_dir w.
Proof.
  intros w. split.
  - apply (keeps_bind outside); [apply acquisition_keeps|intros _].
    apply read_csv_keeps.
  - intros df. apply storage_keeps.
Qed.

(** ** Runs that fail early *)

Lemma tokenize_blank_lines (n : nat) :
  Tokenizer.tokenize (blank_lines n) = inr [].
Proof.
  unfold Tokenizer.tokenize.
  assert (Hb : Tokenizer.skip_bom (list_ascii_of_string (blank_lines n)) =
               list_ascii_of_string (blank_lines n))
    by (destruct n as [|[|[|n]]]; reflexivity).
  assert (H : fold_left Tokenizer.feed (list_ascii_of_string (blank_lines n))
                        Tokenizer.init = Tokenizer.init).
  { clear Hb. induction n as [|n IH]; [reflexivity|]. simpl. exact IH. }
  now rewrite Hb, H.
Qed.

(** X3.  With a dataset file that is empty or holds nothing but empty
    lines, the run skips the acquisition and dies in the parse with
    [EmptyDataError]; the world is exactly as before: nothing is
    downloaded, printed or written. *)
Theorem X3_empty_dataset_aborts_run :
  forall (w : world) (n : nat),
    lookup tsv_file (script_dir w) = Some (File (Bytes (blank_lines n))) ->
    main w = Raised EmptyDataError w.
Proof.
  intros w n H. unfold main.
  rewrite (bind_of_Done acquisition _ w tt w).
  - apply bind_of_Raised. unfold read_csv, parse_tsv.
    now rewrite H, tokenize_blank_lines.
  - apply acquisition_present. congruence.
Qed.

Lemma main_fetch_Raised w e w' :
  lookup tsv_file (script_dir w) = None ->
  fetch_and_unpack
    (log (Print "opennutrition_foods.tsv not found. Downloading...") w) =
    Raised e w' ->
  main w = Raised e w'.
Proof.
  intros Habs H. unfold main. apply bind_of_Raised.
  rewrite acquisition_absent by auto. apply bind_of_Raised.
  unfold until_cleanup. unfold bind at 1. unfold print at 1. exact H.
Qed.

(** X4.  When the dataset is missing and the server does not deliver a
    zip archive (it cannot be reached, the transfer breaks off, or what
    arrives is not an archive), the run ends with an exception, the
    dataset is still missing afterwards, so that the next run asks the
    server again, and nothing outside the script's directory has
    changed. *)
Theorem X4_failed_download_is_retried :
  forall w : world,
    lookup tsv_file (script_dir w) = None ->
    no_archive (remote w zip_url) = true ->
    exists e w',
      main w = Raised e w' /\
      lookup tsv_file (script_dir w') = None /\
      outside w' = outside w.
Proof.
  intros w Habs Hno.
  set (w0 := log (Print "opennutrition_foods.tsv not found. Downloading...") w).
  assert (Hf : exists e w',
             fetch_and_unpack w0 = Raised e w' /\
             lookup tsv_file (script_dir w') = None).
  { unfold fetch_and_unpack. unfold bind at 1. unfold urlretrieve.
    change (remote w0 zip_url) with (remote w zip_url).
    change (script_dir (log (Request zip_url) w0)) with (script_dir w).
    destruct (remote w zip_url) as [|part|[text|ms|db]] eqn:Er;
      try discriminate.
    - eauto.
    - destruct (write_file _ zip_path (Bytes part) (script_dir w)) as [|es] eqn:Ew.
      + eauto.
      + do 2 eexists. split; [reflexivity|]. simpl.
        unfold write_file in Ew.
        destruct (lookup zip_path (script_dir w)) as [[|]|];
          inversion Ew; now rewrite lookup_set_other.
    - unfold on_script_dir.
      change (script_dir (log (Request zip_url) w0)) with (script_dir w).
      destruct (write_file _ zip_path (Bytes text) (script_dir w)) as [|es] eqn:Ew.
      + eauto.
      + unfold bind, print, ZipFile. simpl.
        assert (El : lookup zip_path es = Some (File (Bytes text))).
        { unfold write_file in Ew.
          destruct (lookup zip_path (script_dir w)) as [[|]|];
            inversion Ew; apply lookup_set_same. }
        rewrite El. do 2 eexists. split; [reflexivity|]. simpl.
        unfold write_file in Ew.
        destruct (lookup zip_path (script_dir w)) as [[|]|];
          inversion Ew; now rewrite lookup_set_other.
    - unfold on_script_dir.
      change (script_dir (log (Request zip_url) w0)) with (script_dir w).
      destruct (write_file _ zip_path (Sqlite db) (script_dir w)) as [|es] eqn:Ew.
      + eauto.
      + unfold bind, print, ZipFile. simpl.
        assert (El : lookup zip_path es = Some (File (Sqlite db))).
        { unfold write_file in Ew.
          destruct (lookup zip_path (script_dir w)) as [[|]|];
            inversion Ew; apply lookup_set_same. }
        rewrite El. do 2 eexists. split; [reflexivity|]. simpl.
        unfold write_file in Ew.
        destruct (lookup zip_path (script_dir w)) as [[|]|];
          inversion Ew; now rewrite lookup_set_other. }
  destruct Hf as (e & w' & Hf & Hl).
  pose proof (main_fetch_Raised _ _ _ Habs Hf) as Hm.
  exists e, w'. split; [exact Hm|]. split; [exact Hl|].
  assert (Hout : outside w' = outside w).
  { change (outside w) with (outside w0).
    exact (keeps_Raised outside _ _ _ _ fetch_and_unpack_keeps Hf). }
  exact Hout.
Qed.

(** ** What the search moves and what it leaves alone *)

Lemma scan_files_top (files : list string) (w : world) :
  scan_files [] files w = Done tt w.
Proof.
  induction files as [|file rest IH]; [reflexivity|].
  simpl. destruct (String.eqb_spec file "opennutrition_foods.tsv") as [->|];
    [reflexivity|exact IH].
Qed.

(** X5.  When the dataset lies at the top of the script's directory and
    no folder below holds a file of its name, the search of lines 32-39
    moves nothing and prints nothing: the guard of line 36 keeps the file
    where it is. *)
Theorem X5_dataset_at_top_is_not_moved :
  forall (w : world) (d : payload),
    lookup tsv_file (script_dir w) = Some (File d) ->
    (forall e, In e (script_dir w) -> holds_file tsv_file (snd e) = false) ->
    find_tsv w = Done tt w.
Proof.
  intros w d Htop Hsub. unfold find_tsv, bind, os_walk.
  rewrite walk_Dir. cbn [for_each]. unfold bind.
  cbn [fst snd]. rewrite scan_files_top.
  apply for_each_idle. intros v Hv. apply scan_files_miss.
  apply in_flat_map in Hv as (e & He & Hv).
  exact (walk_misses _ _ (Hsub e He) _ _ Hv).
Qed.

Lemma within_del_payload (name leaf : string) (parent : path) (es es' : listing) :
  name <> leaf ->
  within parent (fun d => inr (del leaf d)) es = inr es' ->
  payload_of (lookup name es') = payload_of (lookup name es).
Proof.
  intros Hne H. destruct parent as [|c rest]; simpl in H.
  - inversion H. rewrite lookup_del_other; congruence.
  - destruct (lookup c es) as [[|sub]|] eqn:El; try discriminate.
    apply into_inr in H as (sub' & _ & ->).
    destruct (String.eqb_spec c name) as [->|Hc].
    + now rewrite lookup_set_same, El.
    + now rewrite lookup_set_other.
Qed.

Lemma rename_keeps_file (name leaf dst : string) (parent : path) :
  name <> leaf -> name <> dst ->
  keeps (file_at name) (rename (parent ++ [leaf]) dst).
Proof.
  intros Hl Hd w. unfold rename. rewrite split_last_snoc.
  destruct (resolve (parent ++ [leaf]) (Dir (script_dir w))) as [x|];
    [|reflexivity].
  assert (Hmove :
    file_at name
      (final (on_script_dir (fun es =>
         match within parent (fun d => inr (del leaf d)) es with
         | inr es' => inr (set dst x es')
         | inl e => inl e
         end) w)) = file_at name w).
  { unfold on_script_dir.
    destruct (within parent _ (script_dir w)) as [|es'] eqn:E; [reflexivity|].
    unfold file_at. simpl. rewrite lookup_set_other by congruence.
    exact (within_del_payload name leaf parent _ _ Hl E). }
  destruct (lookup dst (script_dir w)) as [[d|[|]]|], x, (os w);
    try reflexivity; exact Hmove.
Qed.

Lemma file_at_print name line w : file_at name (log (Print line) w) = file_at name w.
Proof. reflexivity. Qed.

Lemma find_tsv_keeps_file (name : string) :
  name <> tsv_file -> keeps (file_at name) find_tsv.
Proof.
  intros Hne. apply keeps_bind; [now intros w|]. intros visits.
  apply keeps_for_each. intros [[root dirs] files]. cbn [fst snd].
  induction files as [|file rest IH]; simpl.
  - apply keeps_ret.
  - destruct (String.eqb_spec file "opennutrition_foods.tsv") as [->|];
      [|exact IH].
    destruct (negb _); [|apply keeps_ret].
    apply keeps_bind; [now apply rename_keeps_file|].
    intros _ w. apply file_at_print.
Qed.

(** X6.  Whatever the search of lines 32-39 does and however it ends, a
    file at the top of the script's directory other than the dataset is
    neither changed nor removed, and no such file appears: the script
    itself and the downloaded archive stay as they are. *)
Theorem X6_search_spares_top_level_files :
  forall (w : world) (name : string),
    name <> tsv_file ->
    file_at name (final (find_tsv w)) = file_at name w.
Proof. intros w name Hne. now apply find_tsv_keeps_file. Qed.

Lemma urlretrieve_Done url name w w' :
  urlretrieve url name w = Done tt w' -> exists body, remote w url = Served body.
Proof.
  unfold urlretrieve. destruct (remote w url) as [|part|body]; try discriminate.
  - destruct (write_file _ _ _ _); discriminate.
  - eauto.
Qed.

Lemma extractall_keeps_top_file (ms : list member) (name : string) w w' :
  is_file (lookup name (script_dir w)) = true ->
  extractall ms w = Done tt w' ->
  is_file (lookup name (script_dir w')) = true.
Proof.
  intros H E.
  apply (for_each_invariant
           (fun w => is_file (lookup name (script_dir w)) = true) _ _ _ _)
    in E; auto.
  intros [q m] wa wb _ Ha Eb.
  apply on_script_dir_Done in Eb as (es' & Eb & ->). simpl in *.
  destruct (lookup name (script_dir wa)) as [[d|]|] eqn:El; try discriminate.
  destruct (extract_keeps_file m q [name] (script_dir wa) es' d Eb) as (d' & Hd').
  - simpl. now rewrite El.
  - simpl in Hd'. destruct (lookup name es'); [|discriminate].
    inversion Hd'. reflexivity.
Qed.

(** The archive is still a regular file when the download, the unpacking
    and the search have run to their end. *)
Lemma archive_survives_fetch w w' :
  fetch_and_unpack w = Done tt w' ->
  is_file (lookup zip_path (script_dir w')) = true.
Proof.
  intros H. pose proof H as H0. unfold fetch_and_unpack in H0.
  apply bind_Done in H0 as ([] & w1 & Hu & _).
  destruct (urlretrieve_Done _ _ _ _ Hu) as (body & Hr).
  destruct (fetch_and_unpack_Done _ _ _ Hr H)
    as (ms & wa & wb & _ & Hwa & Hex & Hfind).
  assert (Hb : is_file (lookup zip_path (script_dir wb)) = true).
  { apply (extractall_keeps_top_file ms zip_path wa); auto.
    now rewrite Hwa, lookup_set_same. }
  assert (Hk : file_at zip_path w' =
               file_at zip_path (log (Print "Extracted files") wb)).
  { pose proof (find_tsv_keeps_file zip_path) as K.
    specialize (K ltac:(discriminate) (log (Print "Extracted files") wb)).
    now rewrite Hfind in K. }
  unfold file_at in Hk. simpl in Hk.
  destruct (lookup zip_path (script_dir wb)) as [[d|]|]; try discriminate.
  destruct (lookup zip_path (script_dir w')) as [[d'|]|]; try discriminate.
  reflexivity.
Qed.

(** X7.  Once the download, the unpacking and the search have run to
    their end, the removal of the archive in line 42 cannot fail: neither
    the unpacking nor the search can take the archive away or turn it
    into a folder.  Afterwards the archive is gone. *)
Theorem X7_archive_removal_cannot_fail :
  forall w w1 : world,
    fetch_and_unpack w = Done tt w1 ->
    exists w2,
      unlink zip_path w1 = Done tt w2 /\
      lookup zip_path (script_dir w2) = None.
Proof.
  intros w w1 H. apply archive_survives_fetch in H.
  unfold unlink.
  destruct (lookup zip_path (script_dir w1)) as [[d|]|]; try discriminate.
  eexists. split; [reflexivity|]. simpl. apply lookup_del_same.
Qed.

(** ** The storage step on an existing database file *)



(** A file of a single byte is no obstacle on Linux: SQLite takes it for
    an empty database, and the storage step overwrites it. *)
Example single_byte_is_overwritten :
  exists w',
    resolve (db_path Cases.one_byte) (Dir (data_root Cases.one_byte)) =
      Some (File (Bytes "x")) /\
    storage Fixtures.sample_frame Cases.one_byte = Done tt w' /\
    resolve (db_path Cases.one_byte) (Dir (data_root w')) =
      Some (File (Sqlite [("opennutrition_foods",
                           Sql.frame_table false Fixtures.sample_frame)])).
Proof. eexists. repeat split; vm_compute; reflexivity. Qed.

(** X9.  When a file of two bytes or more that is not a database stands
    at the path of the database, the storage step fails and leaves
    everything as it was: the file is not overwritten.  The exception is
    [DatabaseError], raised by the first statement sent to the file, unless
    the frame has a column name that [pandas] refuses beforehand, which is
    a [ValueError]. *)
Theorem X9_foreign_file_is_not_overwritten :
  forall (w : world) (df : DataFrame) (c c' : ascii) (text : string),
    resolve (db_path w) (Dir (data_root w)) =
      Some (File (Bytes (String c (String c' text)))) ->
    storage df w =
    Raised (if forallb Sql.valid_name (map fst (columns df))
            then DatabaseError else ValueError) w.
Proof.
  intros w df c c' text H. rewrite db_path_app in H.
  destruct (parent_is_dir _ _ _ _ H) as (sub & Hd & _).
  rewrite storage_unfold.
  rewrite (bind_of_Done _ _ w tt w) by (apply mkdir_existing; now rewrite Hd).
  unfold write_database.
  rewrite (bind_of_Done _ _ w (app_data_dir w ++ ["opennutrition_foods.db"]) w).
  2:{ unfold connect. now rewrite H. }
  apply bind_of_Raised. unfold to_sql, Sql.table_setup.
  rewrite schema_names.
  destruct (forallb Sql.valid_name (map fst (columns df))).
  - rewrite (bind_of_Done _ _ w (Sql.frame_table false df) w) by reflexivity.
    apply bind_of_Raised. unfold load. rewrite H. now destruct (os w).
  - now apply bind_of_Raised.
Qed.

(** ** Running the script again *)

Lemma storage_keeps_platform df :
  keeps (fun w => (os w, data_base w)) (storage df).
Proof. apply storage_blind; reflexivity. Qed.

(** X10.  Running the script once more after a run that ended well sends
    no request, succeeds again, and leaves the script's directory and the
    whole tree of the database exactly as the first run left them: the
    table is rebuilt with the same content.  Only the closing message is
    printed again. *)
Theorem X10_second_run_changes_nothing :
  forall w w1 : world,
    main w = Done tt w1 ->
    exists w2,
      main w1 = Done tt w2 /\
      script_dir w2 = script_dir w1 /\
      data_root w2 = data_root w1 /\
      trace w2 = trace w1 ++
                 [Print ("Database created at: " ++ String.concat "/" (db_path w1))].
Proof.
  intros w w1 H.
  destruct (main_Done _ _ H) as (wa & df & _ & Hread & Hst).
  pose proof (keeps_Done script_dir _ _ _ _ (storage_keeps df) Hst) as Es.
  pose proof (keeps_Done _ _ _ _ _ (storage_keeps_platform df) Hst) as Ep.
  apply read_csv_Done in Hread as [_ (text & Hl & Hparse)].
  destruct (storage_Done _ _ _ Hst) as (db0 & Hdb & Hwr).
  assert (Epath : db_path w1 = db_path wa).
  { unfold db_path, user_data_dir. simpl in Ep. inversion Ep. congruence. }
  rewrite <- Epath in Hdb.
  destruct (storage_existing df w1 _ _ Hdb eq_refl
              (writable_again _ _ _ _ Hwr)) as (fs' & Hw & Hs).
  rewrite drop_table_written in Hw.
  assert (Efs : fs' = data_root w1).
  { apply (within_set_id _ _ _ _ _ Hw). now rewrite <- db_path_app. }
  subst fs'.
  eexists. split; [|split; [|split]].
  - unfold main.
    rewrite (bind_of_Done acquisition _ w1 tt w1)
      by (apply acquisition_present; rewrite Es; congruence).
    rewrite (bind_of_Done (read_csv tsv_file) _ w1 df w1).
    + exact Hs.
    + unfold read_csv. now rewrite Es, Hl, Hparse.
  - reflexivity.
  - reflexivity.
  - reflexivity.
Qed.

(** ** The shape of what is read and written *)






(** ** The storage step where there is no database yet *)

(** X12.  When nothing stands in the way of the application-data
    directory, there is no database file yet, and the frame is one that
    SQLite accepts, the storage step of lines 57-63 succeeds: it makes the
    directories that are missing, creates the file, and the file then
    holds the table [opennutrition_foods] with the columns and rows of the
    frame, and no other table. *)
Theorem X12_first_storage_creates_database :
  forall (w : world) (df : DataFrame),
    Sql.storable df = true ->
    unobstructed (app_data_dir w) (Dir (data_root w)) = true ->
    resolve (db_path w) (Dir (data_root w)) = None ->
    exists w',
      storage df w = Done tt w' /\
      resolve (db_path w) (Dir (data_root w')) =
        Some (File (Sqlite [("opennutrition_foods", Sql.frame_table false df)])) /\
      script_dir w' = script_dir w.
Proof.
  intros w df Hdf Hu Hn.
  assert (Hw : Sql.writable "opennutrition_foods" df [] = true)
    by (now apply storable_writable).
  destruct (storage_fresh df w Hu Hn Hw) as (fs' & Hr & Hs).
  eexists. split; [exact Hs|]. split; [exact Hr|reflexivity].
Qed.

(** ** Which copy of the dataset stays *)

Lemma walk_root_prefix (x : node) :
  forall r v, In v (walk r x) -> exists rel, root_of v = r ++ rel.
Proof.
  induction x as [d|es IH] using node_induction; intros r v Hv.
  - destruct Hv.
  - rewrite walk_Dir in Hv. destruct Hv as [<-|Hv].
    + exists []. unfold root_of. simpl. now rewrite app_nil_r.
    + apply in_flat_map in Hv as ([n y] & Hin & Hv). simpl in Hv.
      rewrite Forall_forall in IH.
      destruct (IH _ Hin _ _ Hv) as (rel & E).
      exists (n :: rel). now rewrite E, <- app_assoc.
Qed.

Lemma unique_NoDup (names : list string) :
  unique names = true -> NoDup names.
Proof.
  induction names as [|n tl IH]; simpl; intros H; [constructor|].
  apply andb_prop in H as [Hn Hu]. constructor; auto.
  intros Hin. apply mem_In in Hin. rewrite Hin in Hn. discriminate.
Qed.

(** In a well-formed tree the walk comes to every directory once. *)
Lemma walk_roots_NoDup (x : node) :
  wf x = true -> forall r, NoDup (map root_of (walk r x)).
Proof.
  induction x as [d|es IH] using node_induction; intros Hwf r.
  - constructor.
  - rewrite walk_Dir. cbn [map]. constructor.
    + intros Hin. apply in_map_iff in Hin as (v & Ev & Hv).
      apply in_flat_map in Hv as ([n y] & _ & Hv). simpl in Hv.
      destruct (walk_root_prefix _ _ _ Hv) as (rel & E).
      rewrite E, <- app_assoc in Ev. unfold root_of in Ev. simpl in Ev.
      rewrite <- (app_nil_r r) in Ev at 2.
      apply app_inv_head in Ev. discriminate.
    + rewrite wf_Dir in Hwf. apply andb_prop in Hwf as [Hu Hall].
      rewrite forallb_forall in Hall. rewrite Forall_forall in IH.
      clear - IH Hu Hall.
      induction es as [|[n y] tl IHes]; [constructor|].
      cbn [flat_map map fst snd]. rewrite map_app.
      simpl in Hu. apply andb_prop in Hu as [Hn Hu].
      apply NoDup_app.
      * apply (IH (n, y)); [now left|]. apply (Hall (n, y)). now left.
      * apply IHes; auto.
        -- intros e He. apply IH. now right.
        -- intros e He. apply Hall. now right.
      * intros a Ha Hb.
        apply in_map_iff in Ha as (v & <- & Hv).
        destruct (walk_root_prefix _ _ _ Hv) as (rel & E).
        apply in_map_iff in Hb as (u & Eu & Hu').
        apply in_flat_map in Hu' as ([m z] & Hm & Hu'). simpl in Hu'.
        destruct (walk_root_prefix _ _ _ Hu') as (rel' & E').
        rewrite E, E', <- !app_assoc in Eu. apply app_inv_head in Eu.
        simpl in Eu. inversion Eu. subst m.
        apply negb_true_iff in Hn.
        assert (mem n (map fst tl) = true); [|congruence].
        apply mem_In. apply in_map_iff. exists (n, z). auto.
Qed.

(** Taking one file out of the tree leaves every other file where it is. *)
Lemma within_del_keeps_other (leaf : string) (p : path) :
  forall (q : path) (es es1 : listing) (dx d : payload),
    within p (fun e => inr (del leaf e)) es = inr es1 ->
    resolve (p ++ [leaf]) (Dir es) = Some (File dx) ->
    resolve q (Dir es) = Some (File d) ->
    q <> p ++ [leaf] ->
    resolve q (Dir es1) = Some (File d).
Proof.
  induction p as [|c p IH]; intros q es es1 dx d Hw Hx Hq Hne.
  - simpl in *. inversion Hw; subst es1. clear Hw.
    destruct q as [|c' q]; [discriminate|]. rewrite resolve_cons in *.
    destruct (String.eqb_spec leaf c') as [<-|Hc].
    + destruct (lookup leaf es) as [y|]; [|discriminate].
      inversion Hx; subst y. apply resolve_File in Hq. subst q.
      now contradiction Hne.
    + now rewrite lookup_del_other.
  - cbn [app] in *. simpl in Hw. rewrite resolve_cons in Hx.
    destruct (lookup c es) as [[|sub]|] eqn:El; try discriminate.
    apply into_inr in Hw as (sub1 & Hs & ->).
    destruct q as [|c' q]; [discriminate|]. rewrite resolve_cons in *.
    destruct (String.eqb_spec c c') as [<-|Hc].
    + rewrite lookup_set_same. rewrite El in Hq.
      apply (IH q sub sub1 dx d); auto. congruence.
    + now rewrite lookup_set_other.
Qed.

(** A move of a file that ends well. *)
Lemma rename_file_Done (p : path) (leaf dst : string) (dx : payload) w w1 :
  rename (p ++ [leaf]) dst w = Done tt w1 ->
  resolve (p ++ [leaf]) (Dir (script_dir w)) = Some (File dx) ->
  exists es1,
    within p (fun e => inr (del leaf e)) (script_dir w) = inr es1 /\
    script_dir w1 = set dst (File dx) es1 /\
    is_dir (lookup dst (script_dir w)) = false.
Proof.
  unfold rename. rewrite split_last_snoc. intros H Hx. rewrite Hx in H.
  assert (Hmove :
    on_script_dir (fun es =>
      match within p (fun e => inr (del leaf e)) es with
      | inr es' => inr (set dst (File dx) es')
      | inl e => inl e
      end) w = Done tt w1 ->
    exists es1,
      within p (fun e => inr (del leaf e)) (script_dir w) = inr es1 /\
      script_dir w1 = set dst (File dx) es1).
  { intros Hm. apply on_script_dir_Done in Hm as (es & Hm & ->).
    destruct (within p _ (script_dir w)) as [|es1]; [discriminate|].
    inversion Hm. eauto. }
  destruct (lookup dst (script_dir w)) as [[d|[|]]|], (os w);
    try discriminate;
    destruct (Hmove H) as (es1 & Hw & Hs); eauto.
Qed.

Lemma rename_keeps_other (p : path) (leaf dst c0 c1 : string) (q : path)
      (dx d : payload) w w1 :
  rename (p ++ [leaf]) dst w = Done tt w1 ->
  resolve (p ++ [leaf]) (Dir (script_dir w)) = Some (File dx) ->
  resolve (c0 :: c1 :: q) (Dir (script_dir w)) = Some (File d) ->
  c0 :: c1 :: q <> p ++ [leaf] ->
  resolve (c0 :: c1 :: q) (Dir (script_dir w1)) = Some (File d).
Proof.
  intros H Hx Hq Hne.
  destruct (rename_file_Done _ _ _ _ _ _ H Hx) as (es1 & Hw & Hs & Hd).
  rewrite Hs, resolve_cons.
  assert (Hc : dst <> c0).
  { intros <-. rewrite resolve_cons in Hq.
    destruct (lookup dst (script_dir w)) as [[|]|]; discriminate. }
  rewrite lookup_set_other by auto. rewrite <- resolve_cons.
  exact (within_del_keeps_other _ _ _ _ _ _ _ Hw Hx Hq Hne).
Qed.

Lemma is_copy_spec (v : visit) :
  is_copy v = true <-> In tsv_file (snd v) /\ root_of v <> [].
Proof.
  unfold is_copy. rewrite andb_true_iff, mem_In.
  destruct (root_of v); split; intros [H1 H2]; split; auto; congruence.
Qed.

Section Retained.

Variable es0 : listing.

Lemma search_retains_last (visits : list visit) :
  forall w w',
    NoDup (map root_of visits) ->
    copies_intact es0 visits w ->
    for_each visits (fun v => scan_files (fst (fst v)) (snd v)) w = Done tt w' ->
    match last_copy visits with
    | Some r =>
        exists d,
          resolve (r ++ [tsv_file]) (Dir es0) = Some (File d) /\
          file_at tsv_file w' = Some d
    | None => script_dir w' = script_dir w
    end.
Proof.
  induction visits as [|v rest IH]; intros w w' Hnd Hint H.
  - inversion H. reflexivity.
  - cbn [for_each] in H. step H w1 Hv.
    inversion Hnd as [|r0 l0 Hnotin Hnd']; subst.
    pose proof Hv as Hv'. apply scan_files_Done in Hv'.
    assert (Hint1 : copies_intact es0 rest w1).
    { intros u Hu Hcu.
      destruct (Hint u (or_intror Hu) Hcu) as (d & Hd0 & Hd).
      exists d. split; [exact Hd0|].
      destruct Hv' as [[-> _]|(Hin & Hroot & wr & Hr & Es)]; [exact Hd|].
      rewrite Es.
      assert (Hcv : is_copy v = true) by (apply is_copy_spec; auto).
      destruct (Hint v (or_introl eq_refl) Hcv) as (dx & _ & Hx).
      apply is_copy_spec in Hcu as [_ Hur].
      assert (Hne : root_of u <> root_of v).
      { intros E. apply Hnotin. rewrite <- E. now apply in_map. }
      destruct (root_of u) as [|c0 ru] eqn:Eu; [congruence|].
      destruct (ru ++ [tsv_file]) as [|c1 q] eqn:Eq;
        [destruct ru; discriminate|].
      cbn [app] in *. rewrite Eq in *.
      apply (rename_keeps_other (fst (fst v)) tsv_file tsv_file c0 c1 q dx d w wr);
        auto.
      rewrite <- Eq. change (c0 :: ru ++ [tsv_file]) with ((c0 :: ru) ++ [tsv_file]).
      intros E. apply app_inv_tail in E. now apply Hne. }
    specialize (IH w1 w' Hnd' Hint1 H).
    cbn [last_copy]. destruct (last_copy rest) as [r|]; [exact IH|].
    destruct Hv' as [[-> Hc]|(Hin & Hroot & wr & Hr & Es)].
    + replace (is_copy v) with false; [exact IH|].
      symmetry. destruct (is_copy v) eqn:E; auto.
      apply is_copy_spec in E as [E1 E2]. destruct Hc; contradiction.
    + assert (Hcv : is_copy v = true) by (apply is_copy_spec; auto).
      rewrite Hcv. destruct (Hint v (or_introl eq_refl) Hcv) as (dx & Hx0 & Hx).
      exists dx. split; [exact Hx0|].
      destruct (rename_file_Done _ _ _ _ _ _ Hr Hx) as (es1 & _ & Hs & _).
      unfold file_at. rewrite IH, Es, Hs. now rewrite lookup_set_same.
Qed.

End Retained.

(** X13.  From a well-formed directory, a search (lines 32-39) that ends
    well is settled by the last folder on the walk that holds a copy of
    the dataset: the file at the target is then the copy from that folder,
    whatever was moved there before.  When no folder holds a copy, the
    search changes nothing. *)
Theorem X13_last_copy_is_retained :
  forall w w' : world,
    wf (Dir (script_dir w)) = true ->
    find_tsv w = Done tt w' ->
    match last_copy (walk [] (Dir (script_dir w))) with
    | Some r =>
        exists d,
          resolve (r ++ [tsv_file]) (Dir (script_dir w)) = Some (File d) /\
          file_at tsv_file w' = Some d
    | None => script_dir w' = script_dir w
    end.
Proof.
  intros w w' Hwf H. unfold find_tsv, bind, os_walk in H.
  apply (search_retains_last (script_dir w) _ w w'); auto.
  - now apply walk_roots_NoDup.
  - intros v Hv Hc. apply is_copy_spec in Hc as [Hin _].
    destruct (walk_lists_files _ Hwf _ _ Hv) as (rel & E & Hf).
    simpl in E. unfold root_of. rewrite E.
    destruct (Hf _ Hin) as (d & Hd). eauto.
Qed.

(** ** When the cleanup ends well *)

Lemma lookup_listed (name : string) (es : listing) :
  In name (map fst es) -> exists x, lookup name es = Some x.
Proof.
  induction es as [|[n y] tl IH]; simpl; [easy|].
  destruct (String.eqb_spec n name) as [->|Hne]; [eauto|].
  intros [E|H]; [contradiction|auto].
Qed.

Lemma names_del (name : string) (es : listing) :
  map fst (del name es) =
  filter (fun n => negb (String.eqb n name)) (map fst es).
Proof.
  unfold del. induction es as [|[n y] tl IH]; simpl; auto.
  destruct (String.eqb n name); simpl; now rewrite IH.
Qed.

Lemma notices_loop_ends (items : list string) :
  forall w,
    NoDup items ->
    (forall item, In item items -> notice item = true ->
                  is_file (lookup item (script_dir w)) = true) ->
    exists w', for_each items remove_notice w = Done tt w'.
Proof.
  induction items as [|item rest IH]; intros w Hnd Hfiles.
  - exists w. reflexivity.
  - inversion Hnd as [|a l Hnotin Hnd']; subst.
    cbn [for_each]. unfold bind, remove_notice. fold (notice item).
    destruct (notice item) eqn:En.
    + pose proof (Hfiles item (or_introl eq_refl) En) as Hf.
      unfold unlink.
      destruct (lookup item (script_dir w)) as [[d|]|]; try discriminate.
      apply IH; auto. intros r Hr Hn. simpl.
      rewrite lookup_del_other; [now apply Hfiles; [right|]|].
      intros ->. contradiction.
    + apply IH; auto. intros r Hr Hn. apply Hfiles; auto. now right.
Qed.

(** X14.  The cleanup of lines 42-48 ends well whenever the archive is a
    regular file, no name is listed twice in the script's directory, and
    no entry whose name begins with LICENSE or README is a folder. *)
Theorem X14_cleanup_ends_well :
  forall w : world,
    is_file (lookup zip_path (script_dir w)) = true ->
    unique (map fst (script_dir w)) = true ->
    (forall name, notice name = true ->
                  is_dir (lookup name (script_dir w)) = false) ->
    exists w', cleanup w = Done tt w'.
Proof.
  intros w Hzip Hu Hnodir. unfold cleanup, remove_notices.
  unfold bind at 1. unfold unlink.
  destruct (lookup zip_path (script_dir w)) as [[d|]|]; try discriminate.
  unfold bind, print, iterdir. cbn [script_dir log with_script_dir].
  apply notices_loop_ends.
  - rewrite names_del. apply NoDup_filter. now apply unique_NoDup.
  - intros item Hin Hn. cbn [script_dir log with_script_dir].
    destruct (lookup_listed _ _ Hin) as (x & Hx). rewrite Hx.
    rewrite lookup_del_other in Hx by (apply not_eq_sym, notice_not_zip, Hn).
    specialize (Hnodir item Hn). rewrite Hx in Hnodir.
    now destruct x.
Qed.

(** ** A folder where the dataset should be *)

(** X15.  The guard of line 13 asks whether the path exists, not whether
    it is a file: when a folder stands at the path of the dataset, the
    run skips the download and dies in the parse, where the folder cannot
    be opened: with [IsADirectoryError] on Linux and macOS, with
    [PermissionError] on Windows.  The world is exactly as before. *)
Theorem X15_folder_at_dataset_path :
  forall (w : world) (sub : listing),
    lookup tsv_file (script_dir w) = Some (Dir sub) ->
    main w = Raised (match os w with
                     | Linux | MacOS => IsADirectoryError
                     | Windows => PermissionError
                     end) w.
Proof.
  intros w sub H. unfold main.
  rewrite (bind_of_Done acquisition _ w tt w)
    by (apply acquisition_present; congruence).
  apply bind_of_Raised. unfold read_csv. now rewrite H.
Qed.

(** ** The further statements at work on the sample data *)

Lemma X3_empty_dataset_aborts_run_witness :
  main Cases.empty_dataset = Raised EmptyDataError Cases.empty_dataset.
Proof. apply (X3_empty_dataset_aborts_run Cases.empty_dataset 2). reflexivity. Defined.

Lemma X4_failed_download_is_retried_witness :
  lookup tsv_file (script_dir Cases.offline) = None /\
  no_archive (remote Cases.offline zip_url) = true /\
  exists e w',
    main Cases.offline = Raised e w' /\
    lookup tsv_file (script_dir w') = None /\
    outside w' = outside Cases.offline.
Proof.
  split; [reflexivity|]. split; [reflexivity|].
  exact (X4_failed_download_is_retried Cases.offline eq_refl eq_refl).
Defined.

Lemma X5_dataset_at_top_is_not_moved_witness :
  find_tsv Fixtures.settled = Done tt Fixtures.settled.
Proof.
  apply (X5_dataset_at_top_is_not_moved Fixtures.settled (Bytes Sample.fixture)).
  - vm_compute. reflexivity.
  - intros e He. vm_compute in He.
    destruct He as [<-|[<-|[<-|[]]]]; reflexivity.
Defined.

Lemma X6_search_spares_top_level_files_witness :
  file_at "convert.py" (final (find_tsv (Scenario.two_copies Linux))) =
  file_at "convert.py" (Scenario.two_copies Linux).
Proof.
  apply (X6_search_spares_top_level_files (Scenario.two_copies Linux) "convert.py").
  discriminate.
Defined.

Lemma X7_archive_removal_cannot_fail_witness :
  fetch_and_unpack Sample.fresh = Done tt Cases.fetched /\
  exists w2,
    unlink zip_path Cases.fetched = Done tt w2 /\
    lookup zip_path (script_dir w2) = None.
Proof.
  assert (H : fetch_and_unpack Sample.fresh = Done tt Cases.fetched)
    by (vm_compute; reflexivity).
  split; [exact H|].
  exact (X7_archive_removal_cannot_fail Sample.fresh Cases.fetched H).
Defined.



Lemma X9_foreign_file_is_not_overwritten_witness :
  storage Fixtures.sample_frame Cases.foreign_file =
  Raised DatabaseError Cases.foreign_file.
Proof.
  apply (X9_foreign_file_is_not_overwritten Cases.foreign_file
           Fixtures.sample_frame "n"%char "o"%char "tes").
  vm_compute. reflexivity.
Defined.

Lemma X10_second_run_changes_nothing_witness :
  main Sample.fresh = Done tt Fixtures.settled /\
  exists w2,
    main Fixtures.settled = Done tt w2 /\
    script_dir w2 = script_dir Fixtures.settled /\
    data_root w2 = data_root Fixtures.settled.
Proof.
  assert (H : main Sample.fresh = Done tt Fixtures.settled)
    by (vm_compute; reflexivity).
  split; [exact H|].
  destruct (X10_second_run_changes_nothing Sample.fresh Fixtures.settled H)
    as (w2 & Hm & Hs & Hd & _).
  exists w2. split; [exact Hm|]. split; [exact Hs|exact Hd].
Defined.


Lemma X12_first_storage_creates_database_witness :
  Sql.storable Fixtures.sample_frame = true /\
  unobstructed (app_data_dir Sample.fresh) (Dir (data_root Sample.fresh)) = true /\
  resolve (db_path Sample.fresh) (Dir (data_root Sample.fresh)) = None /\
  exists w',
    storage Fixtures.sample_frame Sample.fresh = Done tt w' /\
    resolve (db_path Sample.fresh) (Dir (data_root w')) =
      Some (File (Sqlite [("opennutrition_foods",
                           Sql.frame_table false Fixtures.sample_frame)])).
Proof.
  assert (H0 : Sql.storable Fixtures.sample_frame = true)
    by (vm_compute; reflexivity).
  assert (H1 : unobstructed (app_data_dir Sample.fresh)
                            (Dir (data_root Sample.fresh)) = true)
    by (vm_compute; reflexivity).
  assert (H2 : resolve (db_path Sample.fresh) (Dir (data_root Sample.fresh)) = None)
    by (vm_compute; reflexivity).
  split; [exact H0|]. split; [exact H1|]. split; [exact H2|].
  destruct (X12_first_storage_creates_database Sample.fresh
              Fixtures.sample_frame H0 H1 H2) as (w' & Hs & Hr & _).
  exists w'. split; [exact Hs|exact Hr].
Defined.

Lemma X13_last_copy_is_retained_witness :
  last_copy (walk [] (Dir (script_dir (Scenario.two_copies Linux)))) = Some ["b"] /\
  exists d,
    resolve (["b"] ++ [tsv_file])
            (Dir (script_dir (Scenario.two_copies Linux))) = Some (File d) /\
    file_at tsv_file (final (find_tsv (Scenario.two_copies Linux))) = Some d.
Proof.
  assert (E : last_copy (walk [] (Dir (script_dir (Scenario.two_copies Linux)))) =
              Some ["b"]) by (vm_compute; reflexivity).
  split; [exact E|].
  assert (Hwf : wf (Dir (script_dir (Scenario.two_copies Linux))) = true)
    by (vm_compute; reflexivity).
  assert (H : find_tsv (Scenario.two_copies Linux) =
              Done tt (final (find_tsv (Scenario.two_copies Linux))))
    by (vm_compute; reflexivity).
  pose proof (X13_last_copy_is_retained _ _ Hwf H) as K.
  rewrite E in K. exact K.
Defined.

Lemma X14_cleanup_ends_well_witness :
  exists w', cleanup Cases.flat = Done tt w'.
Proof.
  apply (X14_cleanup_ends_well Cases.flat).
  - vm_compute. reflexivity.
  - vm_compute. reflexivity.
  - intros name _. unfold Cases.flat. cbn [script_dir lookup].
    repeat match goal with
           | |- context [String.eqb ?a name] => destruct (String.eqb a name)
           end; reflexivity.
Defined.

Lemma X15_folder_at_dataset_path_witness :
  main Cases.folder_in_place = Raised IsADirectoryError Cases.folder_in_place.
Proof.
  apply (X15_folder_at_dataset_path Cases.folder_in_place []). reflexivity.
Defined.
